(* A shallow embedding of the authentication-and-assignment core of the
   Colab VS Code extension: the login orchestrator (src/auth/login.ts), the
   proxied redirect flow's callback handler (src/auth/flows/proxied.ts), the
   nonce-keyed code manager (src/auth/code-manager.ts) and the assignment
   manager (src/jupyter/assignments.ts). *)

From Stdlib Require Import ZArith Ascii.
From stdpp Require Import base gmap strings list pretty.

Open Scope string_scope.

(* ------------------------------------------------------------------ *)
(* Errors                                                              *)
(* ------------------------------------------------------------------ *)

(* Every [throw new Error(...)] site of the modelled code, and the
   rejection of a collaborator's promise. *)
Inductive Err :=
| NoFlowsAvailable                    (* "No authentication flows available." *)
| TokenExchangeFailed (details : string) (* "Failed to get token: <details>." *)
| IncompleteCredentials               (* "Missing credential information." *)
| AllFlowsFailed                      (* "All authentication methods failed." *)
| AuthenticationFailed                (* "Authentication failed." *)
| MissingNonceOrCode                  (* "Missing nonce or code in redirect URI" *)
| AlreadyWaiting | UnknownNonce | Timeout | Cancelled
| MissingConnectionInfo
| Rejected (msg : string).

Definition message (e : Err) : string :=
  match e with
  | NoFlowsAvailable => "No authentication flows available."
  | TokenExchangeFailed d => "Failed to get token: " ++ d ++ "."
  | IncompleteCredentials => "Missing credential information."
  | AllFlowsFailed => "All authentication methods failed."
  | AuthenticationFailed => "Authentication failed."
  | MissingNonceOrCode => "Missing nonce or code in redirect URI"
  | AlreadyWaiting => "Already waiting for nonce"
  | UnknownNonce => "Unexpected code exchange received"
  | Timeout => "Code exchange timeout"
  | Cancelled => "Code exchange cancelled"
  | MissingConnectionInfo => "Missing connection info"
  | Rejected m => m
  end.

(* ------------------------------------------------------------------ *)
(* A state and error monad: an async function that may throw, over an  *)
(* explicit world.                                                     *)
(* ------------------------------------------------------------------ *)

Definition M (W A : Type) : Type := W -> (Err + A) * W.

Global Instance M_ret {W} : MRet (M W) := fun A x w => (inr x, w).
Global Instance M_bind {W} : MBind (M W) :=
  fun A B (k : A -> M W B) (m : M W A) w =>
    match m w with
    | (inl e, w') => (inl e, w')
    | (inr x, w') => k x w'
    end.

Definition throw {W A} (e : Err) : M W A := fun w => (inl e, w).

(* [try { m } catch (err) { h(err) }] *)
Definition catch {W A} (m : M W A) (h : Err -> M W A) : M W A :=
  fun w =>
    match m w with
    | (inl e, w') => h e w'
    | (inr x, w') => (inr x, w')
    end.

(* Await a collaborator's promise, which resolves or rejects. *)
Definition await {W A} (p : Err + A) : M W A := fun w => (p, w).

Definition modify {W} (f : W -> W) : M W unit := fun w => (inr tt, f w).
Definition gets {W A} (f : W -> A) : M W A := fun w => (inr (f w), w).

(* ------------------------------------------------------------------ *)
(* Login orchestrator: src/auth/login.ts                               *)
(* ------------------------------------------------------------------ *)

(* google-auth-library's [Credentials]: every field optional. *)
Record OAuth2Credentials := {
  refresh_token : option string;
  access_token : option string;
  expiry_date : option Z;
  scope : option string;
  id_token : option string;
}.

Record GaxiosResponse := { status : Z; statusText : string }.

Record GetTokenResponse := {
  res : option GaxiosResponse;
  tokens : OAuth2Credentials;
}.

Record GetTokenOptions := {
  gt_code : string;
  gt_codeVerifier : string;
  gt_redirect_uri : option string;
}.

(* [Disposable]s are identified by a reference. *)
Record FlowResult := {
  code : string;
  redirectUri : option string;
  disposable : option nat;
}.

Record OAuth2TriggerOptions := {
  cancel : nat;          (* the progress scope's cancellation token *)
  nonce : string;
  scopes : list string;
  pkceChallenge : option string;
}.

(* An [OAuth2Flow] object: its reference (JavaScript object identity) and
   the settled promise of its [trigger]. *)
Record OAuth2Flow := {
  flow_ref : nat;
  trigger : OAuth2TriggerOptions -> Err + FlowResult;
}.

Record CodeVerifierResults := { codeVerifier : string; codeChallenge : string }.

Record OAuth2Client := {
  generateCodeVerifierAsync : nat -> CodeVerifierResults;
  getToken : GetTokenOptions -> Err + GetTokenResponse;
}.

(* Observable effects of a login, in order. *)
Inductive LoginEvent :=
| EvProgress (cancel : nat)                (* window.withProgress *)
| EvPrompt                                 (* the "try a different method?" prompt *)
| EvShowError (msg : string)               (* window.showErrorMessage *)
| EvTrigger (flow : nat) (opts : OAuth2TriggerOptions)
| EvGetToken (opts : GetTokenOptions)
| EvDispose (d : nat).

Record LoginWorld := {
  answers : list (option string);  (* the user's successive prompt answers *)
  next_id : nat;                    (* source of uuid() and token sources *)
  trace : list LoginEvent;
}.

Definition emit (ev : LoginEvent) : M LoginWorld unit :=
  modify (fun w => {| answers := answers w; next_id := next_id w;
                      trace := trace w ++ [ev] |}).

Definition next_fresh : M LoginWorld nat :=
  fun w => (inr (next_id w),
            {| answers := answers w; next_id := S (next_id w); trace := trace w |}).

(* showErrorMessage(...) with "Yes"/"No": the next answer of the user; an
   exhausted list is a dismissed prompt ([undefined]). *)
Definition showPrompt : M LoginWorld (option string) :=
  fun w =>
    let w' := {| answers := tail (answers w); next_id := next_id w;
                 trace := trace w ++ [EvPrompt] |} in
    (inr (head (answers w) ≫= id), w').

Definition promptIfFallback : M LoginWorld bool :=
  result ← showPrompt;
  mret (bool_decide (result = Some "Yes")).

Definition isDefinedCredentials (c : OAuth2Credentials) : bool :=
  bool_decide (is_Some (refresh_token c)) &&
  bool_decide (is_Some (access_token c)) &&
  bool_decide (is_Some (expiry_date c)) &&
  bool_decide (is_Some (scope c)).

Definition exchangeCodeForCredentials (oAuth2Client : OAuth2Client)
    (flowResult : FlowResult) (pkceVerifier : string)
    : M LoginWorld OAuth2Credentials :=
  let req := {| gt_code := code flowResult; gt_codeVerifier := pkceVerifier;
                gt_redirect_uri := redirectUri flowResult |} in
  emit (EvGetToken req);;
  tokenResponse ← await (getToken oAuth2Client req);
  match res tokenResponse with
  | Some r =>
      if bool_decide (status r = 200%Z) then
        if isDefinedCredentials (tokens tokenResponse)
        then mret (tokens tokenResponse)
        else throw IncompleteCredentials
      else throw (TokenExchangeFailed (statusText r))
  | None => throw (TokenExchangeFailed "unknown error")
  end.

(* The task run inside [window.withProgress]. *)
Definition attempt (client : OAuth2Client) (scopes0 : list string)
    (flow : OAuth2Flow) : M LoginWorld OAuth2Credentials :=
  cancel0 ← next_fresh;
  emit (EvProgress cancel0);;
  nonce0 ← next_fresh;
  let pkce := generateCodeVerifierAsync client nonce0 in
  let triggerOptions := {| cancel := cancel0; nonce := pretty nonce0;
                           scopes := scopes0;
                           pkceChallenge := Some (codeChallenge pkce) |} in
  emit (EvTrigger (flow_ref flow) triggerOptions);;
  flowResult ← await (trigger flow triggerOptions);
  r ← exchangeCodeForCredentials client flowResult (codeVerifier pkce);
  match disposable flowResult with
  | Some d => emit (EvDispose d)
  | None => mret tt
  end;;
  mret r.

(* Outcome of one iteration's [try] block. *)
Inductive Step := SBreak | SReturn (c : OAuth2Credentials).

Definition loop_body (client : OAuth2Client) (scopes0 : list string)
    (first flow : OAuth2Flow) : M LoginWorld Step :=
  (* flow !== flows[0] && !(await promptIfFallback(vs)) *)
  let check : M LoginWorld bool :=
    if negb (bool_decide (flow_ref flow = flow_ref first))
    then promptIfFallback else mret true in
  check ≫= fun proceed : bool =>
  if proceed then (c ← attempt client scopes0 flow; mret (SReturn c))
  else mret SBreak.

Fixpoint login_loop (client : OAuth2Client) (scopes0 : list string)
    (first : OAuth2Flow) (flows : list OAuth2Flow)
    : M LoginWorld (option OAuth2Credentials) :=
  match flows with
  | [] => mret None
  | flow :: rest =>
      r ← catch (s ← loop_body client scopes0 first flow; mret (Some s))
                (fun err => emit (EvShowError ("Sign-in attempt failed: "
                                               ++ message err ++ "."));;
                            mret None);
      match r with
      | Some SBreak => mret None
      | Some (SReturn c) => mret (Some c)
      | None => login_loop client scopes0 first rest
      end
  end.

Definition login (flows : list OAuth2Flow) (client : OAuth2Client)
    (scopes0 : list string) : M LoginWorld OAuth2Credentials :=
  match flows with
  | [] => throw NoFlowsAvailable
  | first :: _ =>
      r ← login_loop client scopes0 first flows;
      match r with
      | Some c => mret c
      | None => throw (if bool_decide (1 < length flows)
                       then AllFlowsFailed else AuthenticationFailed)
      end
  end.

(* The fallback loop as the spec words it: an iterator of (strategy,
   isFirst) pairs, prompting before every strategy but the first. *)
Fixpoint login_loop_by_position (client : OAuth2Client)
    (scopes0 : list string) (isFirst : bool) (flows : list OAuth2Flow)
    : M LoginWorld (option OAuth2Credentials) :=
  match flows with
  | [] => mret None
  | flow :: rest =>
      let check : M LoginWorld bool :=
        if isFirst then mret true else promptIfFallback in
      r ← catch (check ≫= fun proceed : bool =>
                 if proceed then (c ← attempt client scopes0 flow;
                                  mret (Some (SReturn c)))
                 else mret (Some SBreak))
                (fun err => emit (EvShowError ("Sign-in attempt failed: "
                                               ++ message err ++ "."));;
                            mret None);
      match r with
      | Some SBreak => mret None
      | Some (SReturn c) => mret (Some c)
      | None => login_loop_by_position client scopes0 false rest
      end
  end.

Definition login_by_position (flows : list OAuth2Flow) (client : OAuth2Client)
    (scopes0 : list string) : M LoginWorld OAuth2Credentials :=
  match flows with
  | [] => throw NoFlowsAvailable
  | _ :: _ =>
      r ← login_loop_by_position client scopes0 true flows;
      match r with
      | Some c => mret c
      | None => throw (if bool_decide (1 < length flows)
                       then AllFlowsFailed else AuthenticationFailed)
      end
  end.

(* HTTP's notion of a successful status: the 2xx class. *)
Definition http_success (s : Z) : Prop := (200 <= s < 300)%Z.

(* ------------------------------------------------------------------ *)
(* Facts about the login model                                         *)
(* ------------------------------------------------------------------ *)

Ltac unfold_monad :=
  unfold mbind, M_bind, mret, M_ret, catch, throw, await, modify, gets,
    emit, next_fresh in *.

Lemma exchange_trace client fr v w :
  trace (snd (exchangeCodeForCredentials client fr v w)) =
  (trace w ++ [EvGetToken {| gt_code := code fr; gt_codeVerifier := v;
                            gt_redirect_uri := redirectUri fr |}])%list.
Proof.
  unfold exchangeCodeForCredentials. unfold_monad. cbn.
  destruct (getToken client _) as [e|resp]; cbn; [done|].
  destruct (res resp) as [g|]; cbn; [|done].
  case_bool_decide; [destruct (isDefinedCredentials _)|]; done.
Qed.

Lemma exchange_result client fr v w :
  fst (exchangeCodeForCredentials client fr v w) =
  match getToken client {| gt_code := code fr; gt_codeVerifier := v;
                           gt_redirect_uri := redirectUri fr |} with
  | inl e => inl e
  | inr resp =>
      match res resp with
      | Some g =>
          if bool_decide (status g = 200%Z) then
            if isDefinedCredentials (tokens resp) then inr (tokens resp)
            else inl IncompleteCredentials
          else inl (TokenExchangeFailed (statusText g))
      | None => inl (TokenExchangeFailed "unknown error")
      end
  end.
Proof.
  unfold exchangeCodeForCredentials. unfold_monad. cbn.
  destruct (getToken client _) as [e|resp]; cbn; [done|].
  destruct (res resp) as [g|]; cbn; [|done].
  case_bool_decide; [destruct (isDefinedCredentials _)|]; done.
Qed.

Lemma isDefinedCredentials_false c :
  isDefinedCredentials c = false <->
  refresh_token c = None \/ access_token c = None \/
  expiry_date c = None \/ scope c = None.
Proof.
  unfold isDefinedCredentials.
  destruct (refresh_token c), (access_token c), (expiry_date c), (scope c);
    cbn; intuition (try discriminate); exfalso; eapply is_Some_None; eauto.
Qed.

(* One attempt whose trigger resolved: the world just before the token
   exchange, and the attempt's outcome in terms of the exchange. *)
Definition world_before_exchange (client : OAuth2Client) (scopes0 : list string)
    (flow : OAuth2Flow) (w : LoginWorld) : LoginWorld :=
  {| answers := answers w; next_id := S (S (next_id w));
     trace := (trace w ++ [EvProgress (next_id w)] ++
               [EvTrigger (flow_ref flow)
                  {| cancel := next_id w; nonce := pretty (S (next_id w));
                     scopes := scopes0;
                     pkceChallenge := Some (codeChallenge
                        (generateCodeVerifierAsync client (S (next_id w)))) |}])%list |}.

Lemma attempt_after_trigger client scopes0 flow w fr :
  (forall o, trigger flow o = inr fr) ->
  let v := codeVerifier (generateCodeVerifierAsync client (S (next_id w))) in
  let w1 := world_before_exchange client scopes0 flow w in
  attempt client scopes0 flow w =
  match exchangeCodeForCredentials client fr v w1 with
  | (inl e, w2) => (inl e, w2)
  | (inr c, w2) =>
      match disposable fr with
      | Some d => (inr c, {| answers := answers w2; next_id := next_id w2;
                             trace := (trace w2 ++ [EvDispose d])%list |})
      | None => (inr c, w2)
      end
  end.
Proof.
  intros Htr v w1. unfold attempt. unfold_monad. cbn. rewrite Htr.
  subst w1 v. unfold world_before_exchange. cbn.
  rewrite <- !(assoc_L app). cbn.
  destruct (exchangeCodeForCredentials _ _ _ _) as [[e|c] w2]; [done|].
  destruct (disposable fr); done.
Qed.

(** C3 (amended): in a login attempt whose trigger resolved with an
    authorization code and whose [getToken] call resolved, the attempt
    fails with [TokenExchangeFailed] when the response has no HTTP part or
    its status is anything but exactly 200; with status 200 it fails with
    [IncompleteCredentials] when the tokens lack any of refresh token,
    access token, expiry date or scope; otherwise it returns the tokens. *)
Theorem attempt_token_exchange_outcome client scopes0 flow w fr resp :
  (forall o, trigger flow o = inr fr) ->
  (forall q, getToken client q = inr resp) ->
  let r := fst (attempt client scopes0 flow w) in
  ((res resp = None \/ exists g, res resp = Some g /\ status g <> 200%Z) ->
     exists d, r = inl (TokenExchangeFailed d)) /\
  ((exists g, res resp = Some g /\ status g = 200%Z) ->
     (refresh_token (tokens resp) = None \/ access_token (tokens resp) = None \/
      expiry_date (tokens resp) = None \/ scope (tokens resp) = None) ->
     r = inl IncompleteCredentials) /\
  ((exists g, res resp = Some g /\ status g = 200%Z) ->
     is_Some (refresh_token (tokens resp)) ->
     is_Some (access_token (tokens resp)) ->
     is_Some (expiry_date (tokens resp)) ->
     is_Some (scope (tokens resp)) ->
     r = inr (tokens resp)).
Proof.
  intros Htr Hgt r. subst r.
  rewrite (attempt_after_trigger client scopes0 flow w fr Htr).
  set (v := codeVerifier _). set (w1 := world_before_exchange _ _ _ _).
  pose proof (exchange_result client fr v w1) as Hx.
  rewrite Hgt in Hx.
  destruct (exchangeCodeForCredentials client fr v w1) as [r w2] eqn:Ex.
  cbn in Hx.
  assert (Hr : fst (match (r, w2) with
                    | (inl e, w3) => (inl e, w3)
                    | (inr c, w3) =>
                        match disposable fr with
                        | Some d => (inr c, {| answers := answers w3;
                                               next_id := next_id w3;
                                               trace := (trace w3 ++ [EvDispose d])%list |})
                        | None => (inr c, w3)
                        end
                    end) = r)
    by (destruct r; [done|]; destruct (disposable fr); done).
  rewrite Hr. cbn in Hx. subst r.
  split; [|split].
  - intros [Hn|(g & Hg & Hs)].
    + rewrite Hn. eauto.
    + rewrite Hg. rewrite bool_decide_false by done. eauto.
  - intros (g & Hg & Hs) Hmiss. rewrite Hg, bool_decide_true by done.
    apply isDefinedCredentials_false in Hmiss. by rewrite Hmiss.
  - intros (g & Hg & Hs) H1 H2 H3 H4. rewrite Hg, bool_decide_true by done.
    unfold isDefinedCredentials.
    rewrite !bool_decide_true by done. done.
Qed.

(** C10: within one login attempt whose trigger resolved with a
    [FlowResult] carrying a disposable [d], [d] is disposed if and only if
    the token exchange succeeds; on success the disposal is the attempt's
    last effect, just before the credentials are returned, and when the
    exchange fails the disposable is never disposed. *)
Theorem attempt_disposes_iff_exchange_succeeds client scopes0 flow w fr d :
  (forall o, trigger flow o = inr fr) ->
  disposable fr = Some d ->
  let v := codeVerifier (generateCodeVerifierAsync client (S (next_id w))) in
  let w1 := world_before_exchange client scopes0 flow w in
  let exchanged := fst (exchangeCodeForCredentials client fr v w1) in
  let '(r, w') := attempt client scopes0 flow w in
  r = exchanged /\
  exists delta, trace w' = (trace w ++ delta)%list /\
    (EvDispose d ∈ delta <-> exists c, exchanged = inr c) /\
    (forall c, exchanged = inr c -> last delta = Some (EvDispose d)).
Proof.
  intros Htr Hd v w1 exchanged.
  rewrite (attempt_after_trigger client scopes0 flow w fr Htr).
  fold v w1. subst exchanged.
  assert (Hw1 : trace w1 = (trace w ++ [EvProgress (next_id w);
            EvTrigger (flow_ref flow)
              {| cancel := next_id w; nonce := pretty (S (next_id w));
                 scopes := scopes0;
                 pkceChallenge := Some (codeChallenge
                    (generateCodeVerifierAsync client (S (next_id w)))) |}])%list)
    by (subst w1; cbn; rewrite <- ?(assoc_L app); reflexivity).
  clearbody w1 v.
  pose proof (exchange_trace client fr v w1) as Ht.
  destruct (exchangeCodeForCredentials client fr v w1) as [r w2] eqn:Ex.
  cbn in Ht |- *.
  rewrite Hw1, <- (assoc_L app) in Ht. cbn in Ht.
  destruct r as [e|c].
  - split; [done|]. eexists. split; [exact Ht|]. split.
    + split; [|intros [? [=]]].
      rewrite !elem_of_cons. intros [?|[?|[?|?%elem_of_nil]]];
        [discriminate..|done].
    + intros c' [=].
  - rewrite Hd. cbn. split; [done|]. eexists. split.
    + rewrite Ht, <- (assoc_L app). reflexivity.
    + split.
      * split; [eauto|]. intros _. set_solver.
      * intros c' _. reflexivity.
Qed.

Lemma login_loop_later_flows client scopes0 first l w :
  flow_ref first ∉ map flow_ref l ->
  login_loop client scopes0 first l w =
  login_loop_by_position client scopes0 false l w.
Proof.
  revert w. induction l as [|f rest IH]; intros w Hnot; [done|].
  rewrite fmap_cons, not_elem_of_cons in Hnot. destruct Hnot as [Hne Hrest].
  cbn [login_loop login_loop_by_position]. unfold loop_body.
  rewrite bool_decide_false by congruence. cbn [negb].
  unfold_monad.
  destruct (promptIfFallback w) as [[e|[|]] w1]; cbn.
  - apply IH; done.
  - destruct (attempt client scopes0 f w1) as [[e|c] w2]; cbn; [|done].
    apply IH; done.
  - done.
Qed.

(* With pairwise distinct flow objects, comparing against [flows[0]] by
   reference is the same as asking "is this the first position?". *)
Lemma login_distinct_flows_by_position flows client scopes0 w :
  NoDup (map flow_ref flows) ->
  login flows client scopes0 w = login_by_position flows client scopes0 w.
Proof.
  intros Hnd. destruct flows as [|first rest]; [done|].
  rewrite fmap_cons in Hnd. apply NoDup_cons in Hnd as [Hnot _].
  unfold login, login_by_position.
  assert (Hloop : login_loop client scopes0 first (first :: rest) w =
                  login_loop_by_position client scopes0 true (first :: rest) w).
  { cbn [login_loop login_loop_by_position]. unfold loop_body.
    rewrite bool_decide_true by done. cbn [negb].
    unfold_monad.
    destruct (attempt client scopes0 first w) as [[e|c] w1]; cbn; [|done].
    apply login_loop_later_flows; done. }
  unfold_monad. rewrite Hloop. done.
Qed.

(* ------------------------------------------------------------------ *)
(* Concrete login inputs                                               *)
(* ------------------------------------------------------------------ *)

Definition ex_credentials : OAuth2Credentials :=
  {| refresh_token := Some "1//23"; access_token := Some "42";
     expiry_date := Some 3600000%Z; scope := Some "scope1 scope2";
     id_token := Some "eh" |}.

Definition ex_flow_failing : OAuth2Flow :=
  {| flow_ref := 1; trigger := fun _ => inl (Rejected "Flow failed") |}.

Definition ex_flow_result : FlowResult :=
  {| code := "123"; redirectUri := Some "http://example.com/redirect";
     disposable := Some 7 |}.

Definition ex_flow_ok : OAuth2Flow :=
  {| flow_ref := 2; trigger := fun _ => inr ex_flow_result |}.

Definition ex_token_response (s : Z) (text : string) : GetTokenResponse :=
  {| res := Some {| status := s; statusText := text |};
     tokens := ex_credentials |}.

Definition ex_client_status (s : Z) (text : string) : OAuth2Client :=
  {| generateCodeVerifierAsync := fun n =>
       {| codeVerifier := "verifier" ++ pretty n;
          codeChallenge := "challenge" ++ pretty n |};
     getToken := fun _ => inr (ex_token_response s text) |}.

Definition ex_world (ans : list (option string)) : LoginWorld :=
  {| answers := ans; next_id := 0; trace := [] |}.

(** C1 (divergence): the provider yields the same flow object twice and
    the user would decline the "try a different method?" prompt. The
    second strategy is attempted all the same and the prompt is never
    shown, because the code tests [flow !== flows[0]] (object identity)
    rather than the position in the list; the position-based reading of
    the spec prompts once and stops after one attempt. *)
Theorem login_repeated_flow_attempted_without_prompt :
  login [ex_flow_failing; ex_flow_failing] (ex_client_status 200 "OK")
        ["scope1"] (ex_world [Some "No"]) =
  (inl AllFlowsFailed,
   {| answers := [Some "No"]; next_id := 4;
      trace := [EvProgress 0;
                EvTrigger 1 {| cancel := 0; nonce := "1"; scopes := ["scope1"];
                               pkceChallenge := Some "challenge1" |};
                EvShowError "Sign-in attempt failed: Flow failed.";
                EvProgress 2;
                EvTrigger 1 {| cancel := 2; nonce := "3"; scopes := ["scope1"];
                               pkceChallenge := Some "challenge3" |};
                EvShowError "Sign-in attempt failed: Flow failed."] |}) /\
  login_by_position [ex_flow_failing; ex_flow_failing] (ex_client_status 200 "OK")
        ["scope1"] (ex_world [Some "No"]) =
  (inl AllFlowsFailed,
   {| answers := []; next_id := 2;
      trace := [EvProgress 0;
                EvTrigger 1 {| cancel := 0; nonce := "1"; scopes := ["scope1"];
                               pkceChallenge := Some "challenge1" |};
                EvShowError "Sign-in attempt failed: Flow failed.";
                EvPrompt] |}).
Proof. split; vm_compute; reflexivity. Qed.

Lemma attempt_token_exchange_outcome_witness :
  (forall o, trigger ex_flow_ok o = inr ex_flow_result) /\
  (forall q, getToken (ex_client_status 200 "OK") q =
             inr (ex_token_response 200 "OK")) /\
  fst (attempt (ex_client_status 200 "OK") ["scope1"] ex_flow_ok (ex_world []))
  = inr ex_credentials.
Proof.
  split; [intros; reflexivity|]. split; [intros; reflexivity|].
  destruct (attempt_token_exchange_outcome (ex_client_status 200 "OK")
              ["scope1"] ex_flow_ok (ex_world []) ex_flow_result
              (ex_token_response 200 "OK") (fun _ => eq_refl) (fun _ => eq_refl))
    as (_ & _ & H).
  apply H; cbn; [eexists; split; reflexivity|eexists; reflexivity..].
Defined.

(** C3 (as stated, with success read as a 2xx status): a token response
    with status 201 and all four credential fields present is a success
    response, yet the attempt fails with [TokenExchangeFailed]. *)
Lemma attempt_token_exchange_201_rejected :
  exists g, res (ex_token_response 201 "Created") = Some g /\
    http_success (status g) /\
    isDefinedCredentials (tokens (ex_token_response 201 "Created")) = true /\
    fst (attempt (ex_client_status 201 "Created") ["scope1"] ex_flow_ok
                 (ex_world []))
    = inl (TokenExchangeFailed "Created") /\
    fst (attempt (ex_client_status 201 "Created") ["scope1"] ex_flow_ok
                 (ex_world []))
    <> inr (tokens (ex_token_response 201 "Created")).
Proof.
  eexists. split; [reflexivity|]. split; [unfold http_success; cbn; lia|].
  split; [reflexivity|]. vm_compute. split; [reflexivity|discriminate].
Qed.

Lemma attempt_disposes_iff_exchange_succeeds_witness :
  (forall o, trigger ex_flow_ok o = inr ex_flow_result) /\
  disposable ex_flow_result = Some 7 /\
  trace (snd (attempt (ex_client_status 200 "OK") ["scope1"] ex_flow_ok
                      (ex_world []))) =
  [EvProgress 0;
   EvTrigger 2 {| cancel := 0; nonce := "1"; scopes := ["scope1"];
                  pkceChallenge := Some "challenge1" |};
   EvGetToken {| gt_code := "123"; gt_codeVerifier := "verifier1";
                 gt_redirect_uri := Some "http://example.com/redirect" |};
   EvDispose 7].
Proof.
  split; [intros; reflexivity|]. split; [reflexivity|].
  pose proof (attempt_disposes_iff_exchange_succeeds
                (ex_client_status 200 "OK") ["scope1"] ex_flow_ok
                (ex_world []) ex_flow_result 7 (fun _ => eq_refl) eq_refl) as H.
  vm_compute in H. destruct H as [_ (delta & Hd & _)].
  vm_compute. vm_compute in Hd. rewrite Hd. reflexivity.
Defined.

(* ------------------------------------------------------------------ *)
(* Code manager: src/auth/code-manager.ts                              *)
(* ------------------------------------------------------------------ *)

Inductive Outcome := Resolved (code : string) | Failed (e : Err).

(* The promise returned by one [waitForCode] call: still pending (for its
   nonce, with the time its 60 s timer fires and its cancellation token),
   or settled. *)
Inductive Req :=
| RPending (nonce : string) (deadline : Z) (token : nat)
| RDone (o : Outcome).

Definition TIMEOUT_MS : Z := 60000.

(** Modelled from the spec: the [CodeManager] class of
    src/auth/code-manager.ts (only its tests are in the repository). A
    nonce-keyed table of pending requests; each [waitForCode] call returns
    a promise, identified by a ticket. Time is in milliseconds. *)
Record CodeManager := {
  cm_now : Z;
  cm_waiting : gmap string nat;   (* nonce -> ticket of its pending promise *)
  cm_reqs : gmap nat Req;         (* ticket -> state of the promise *)
  cm_next : nat;                  (* next ticket *)
}.

Definition code_manager_init (now : Z) : CodeManager :=
  {| cm_now := now; cm_waiting := ∅; cm_reqs := ∅; cm_next := 0 |}.

(** Modelled from the spec: [waitForCode(nonce, token)] registers a
    pending request with a deadline 60 s after registration; its promise
    fails with [AlreadyWaiting] if [nonce] is already registered. *)
Definition waitForCode (nonce0 : string) (token : nat) : M CodeManager nat :=
  fun s =>
    let k := cm_next s in
    match cm_waiting s !! nonce0 with
    | Some _ =>
        (inr k, {| cm_now := cm_now s; cm_waiting := cm_waiting s;
                   cm_reqs := <[k := RDone (Failed AlreadyWaiting)]> (cm_reqs s);
                   cm_next := S k |})
    | None =>
        (inr k, {| cm_now := cm_now s;
                   cm_waiting := <[nonce0 := k]> (cm_waiting s);
                   cm_reqs := <[k := RPending nonce0 (cm_now s + TIMEOUT_MS)%Z token]>
                                (cm_reqs s);
                   cm_next := S k |})
    end.

(** Modelled from the spec: [resolveCode(nonce, code)] throws
    [UnknownNonce] when no request is pending for [nonce], and otherwise
    resolves exactly that request and removes its entry. *)
Definition resolveCode (nonce0 code0 : string) : M CodeManager unit :=
  fun s =>
    match cm_waiting s !! nonce0 with
    | None => (inl UnknownNonce, s)
    | Some k =>
        (inr tt, {| cm_now := cm_now s; cm_waiting := delete nonce0 (cm_waiting s);
                    cm_reqs := <[k := RDone (Resolved code0)]> (cm_reqs s);
                    cm_next := cm_next s |})
    end.

Definition is_pending_at (reqs : gmap nat Req) (k : nat) : bool :=
  match reqs !! k with Some (RPending _ _ _) => true | _ => false end.

(* Drop the nonces whose promise has settled. *)
Definition prune (reqs : gmap nat Req) (waiting : gmap string nat)
    : gmap string nat :=
  filter (fun kv => is_pending_at reqs kv.2 = true) waiting.

Definition expire (now : Z) (r : Req) : Req :=
  match r with
  | RPending _ d _ => if bool_decide (d <= now)%Z then RDone (Failed Timeout) else r
  | RDone _ => r
  end.

(** Modelled from the spec: the event loop advances the clock by [ms];
    every pending request whose 60 s timer is due fails with [Timeout]. *)
Definition elapse (ms : Z) (s : CodeManager) : CodeManager :=
  let now := (cm_now s + ms)%Z in
  let reqs := expire now <$> cm_reqs s in
  {| cm_now := now; cm_waiting := prune reqs (cm_waiting s);
     cm_reqs := reqs; cm_next := cm_next s |}.

Definition cancel_req (token : nat) (r : Req) : Req :=
  match r with
  | RPending _ _ t => if bool_decide (t = token) then RDone (Failed Cancelled) else r
  | RDone _ => r
  end.

(** Modelled from the spec: firing a cancellation token fails every
    request waiting on it with [Cancelled]. *)
Definition fire_cancel (token : nat) (s : CodeManager) : CodeManager :=
  let reqs := cancel_req token <$> cm_reqs s in
  {| cm_now := cm_now s; cm_waiting := prune reqs (cm_waiting s);
     cm_reqs := reqs; cm_next := cm_next s |}.

(* The table is consistent: every registered nonce names a pending promise
   of that nonce and back, and tickets not yet handed out are unused. *)
Definition cm_wf (s : CodeManager) : Prop :=
  (forall n k, cm_waiting s !! n = Some k ->
     exists d t, cm_reqs s !! k = Some (RPending n d t)) /\
  (forall k n d t, cm_reqs s !! k = Some (RPending n d t) ->
     cm_waiting s !! n = Some k) /\
  (forall k, cm_next s <= k -> cm_reqs s !! k = None).

(* ------------------------------------------------------------------ *)
(* Proxied redirect flow's URI handler: src/auth/flows/proxied.ts      *)
(* ------------------------------------------------------------------ *)

(* [URLSearchParams] over the URI's query: '&'-separated pairs, empty
   pairs skipped, each split at its first '='; [get] returns the first
   value of a name. Percent-decoding is left out: it maps empty values to
   empty values and non-empty ones to non-empty ones. *)
Fixpoint split_on (sep : Ascii.ascii) (s : string) : list string :=
  match s with
  | EmptyString => [EmptyString]
  | String c rest =>
      match split_on sep rest with
      | [] => [String c EmptyString]
      | piece :: pieces =>
          if bool_decide (c = sep) then EmptyString :: piece :: pieces
          else String c piece :: pieces
      end
  end.

Fixpoint split_first (sep : Ascii.ascii) (s : string) : string * string :=
  match s with
  | EmptyString => (EmptyString, EmptyString)
  | String c rest =>
      if bool_decide (c = sep) then (EmptyString, rest)
      else let '(k, v) := split_first sep rest in (String c k, v)
  end.

Definition parse_query (q : string) : list (string * string) :=
  map (split_first "="%char) (filter (fun p => p <> "") (split_on "&"%char q)).

Fixpoint params_get (ps : list (string * string)) (name : string)
    : option string :=
  match ps with
  | [] => None
  | (k, v) :: rest => if bool_decide (k = name) then Some v else params_get rest name
  end.

(* JavaScript truthiness of a [string | null]. *)
Definition truthy (o : option string) : bool :=
  match o with Some v => negb (bool_decide (v = "")) | None => false end.

(* [ProxiedRedirectFlow.resolveCode], bound to the URI handler. *)
Definition handleUri (query : string) : M CodeManager unit :=
  let params := parse_query query in
  let nonce0 := params_get params "nonce" in
  let code0 := params_get params "code" in
  match nonce0, code0 with
  | Some n, Some c =>
      if negb (truthy nonce0) || negb (truthy code0)
      then throw MissingNonceOrCode
      else resolveCode n c
  | _, _ => throw MissingNonceOrCode
  end.

(* ------------------------------------------------------------------ *)
(* Facts about the callback handler                                    *)
(* ------------------------------------------------------------------ *)

(** C9 (amended): the callback handler reads the [nonce] and [code]
    query parameters; when either is absent or empty it throws the single
    error [MissingNonceOrCode] ("Missing nonce or code in redirect URI"),
    the same whichever one is missing, and leaves every pending request as
    it was; otherwise it calls [resolveCode(nonce, code)]. *)
Theorem handleUri_missing_or_resolves (q : string) (s : CodeManager) :
  ((params_get (parse_query q) "nonce" = None \/
    params_get (parse_query q) "nonce" = Some "" \/
    params_get (parse_query q) "code" = None \/
    params_get (parse_query q) "code" = Some "") ->
   handleUri q s = (inl MissingNonceOrCode, s)) /\
  (forall n c, params_get (parse_query q) "nonce" = Some n -> n <> "" ->
     params_get (parse_query q) "code" = Some c -> c <> "" ->
     handleUri q s = resolveCode n c s).
Proof.
  unfold handleUri. split.
  - intros Hmiss.
    destruct (params_get (parse_query q) "nonce") as [n|] eqn:Hn;
      destruct (params_get (parse_query q) "code") as [c|] eqn:Hc;
      try reflexivity.
    unfold truthy.
    destruct Hmiss as [[=]|[[= ->]|[[=]|[= ->]]]];
      rewrite ?bool_decide_true by done; cbn; [done|].
    rewrite orb_true_r. done.
  - intros n c Hn Hne Hc Hce. rewrite Hn, Hc. unfold truthy.
    rewrite !bool_decide_false by done. reflexivity.
Qed.

Lemma handleUri_missing_or_resolves_witness :
  handleUri "nonce=nonce&windowId=1&code="
    (snd (waitForCode "nonce" 0 (code_manager_init 0))) =
  (inl MissingNonceOrCode, snd (waitForCode "nonce" 0 (code_manager_init 0))) /\
  handleUri "nonce=nonce&windowId=1&code=42"
    (snd (waitForCode "nonce" 0 (code_manager_init 0))) =
  resolveCode "nonce" "42" (snd (waitForCode "nonce" 0 (code_manager_init 0))).
Proof.
  split.
  - apply (handleUri_missing_or_resolves "nonce=nonce&windowId=1&code="
             (snd (waitForCode "nonce" 0 (code_manager_init 0)))).
    right; right; right. vm_compute. reflexivity.
  - apply (handleUri_missing_or_resolves "nonce=nonce&windowId=1&code=42"
             (snd (waitForCode "nonce" 0 (code_manager_init 0))));
      [vm_compute; reflexivity|discriminate|vm_compute; reflexivity|discriminate].
Defined.

(** C9 (as stated): a callback without a nonce and one without a code
    fail with one and the same error, so the handler has no distinct
    [MissingNonce] and [MissingCode] failures. *)
Lemma handleUri_no_distinct_missing_errors :
  ~ (exists e1 e2, e1 <> e2 /\
       fst (handleUri "code=42" (snd (waitForCode "1" 0 (code_manager_init 0))))
       = inl e1 /\
       fst (handleUri "nonce=1" (snd (waitForCode "1" 0 (code_manager_init 0))))
       = inl e2).
Proof.
  intros (e1 & e2 & Hne & H1 & H2). vm_compute in H1, H2. congruence.
Qed.

(* ------------------------------------------------------------------ *)
(* Facts about the code manager                                        *)
(* ------------------------------------------------------------------ *)

Section CodeManagerFacts.

(* A way of settling promises: a pending one stays as it is or settles,
   a settled one keeps its outcome. *)
Definition settles (f : Req -> Req) : Prop :=
  (forall n d t, f (RPending n d t) = RPending n d t \/
                 exists o, f (RPending n d t) = RDone o) /\
  (forall o, f (RDone o) = RDone o).

Lemma expire_settles now : settles (expire now).
Proof.
  split; [|done]. intros n d t. cbn. case_bool_decide; eauto.
Qed.

Lemma cancel_req_settles token : settles (cancel_req token).
Proof.
  split; [|done]. intros n d t. cbn. case_bool_decide; eauto.
Qed.

Lemma cm_wf_init now : cm_wf (code_manager_init now).
Proof.
  unfold cm_wf, code_manager_init; cbn.
  split; [|split]; intros *; rewrite ?lookup_empty; done.
Qed.

Lemma cm_wf_settle f now s :
  settles f -> cm_wf s ->
  cm_wf {| cm_now := now; cm_waiting := prune (f <$> cm_reqs s) (cm_waiting s);
           cm_reqs := f <$> cm_reqs s; cm_next := cm_next s |}.
Proof.
  intros [Hp Hd] (W1 & W2 & W3). unfold cm_wf; cbn.
  split; [|split].
  - intros n k H. unfold prune in H.
    apply map_lookup_filter_Some in H as [Hw Hpend]. cbn in Hpend.
    destruct (W1 n k Hw) as (d & t & Hr).
    unfold is_pending_at in Hpend. rewrite lookup_fmap, Hr in Hpend |- *.
    cbn in *. destruct (Hp n d t) as [E|[o E]]; rewrite E in Hpend |- *;
      [eauto|discriminate].
  - intros k n d t H. rewrite lookup_fmap in H.
    destruct (cm_reqs s !! k) as [r|] eqn:Hr; [|discriminate].
    cbn in H. injection H as H.
    destruct r as [n0 d0 t0|o]; [|rewrite Hd in H; discriminate].
    destruct (Hp n0 d0 t0) as [E|[o E]]; rewrite E in H; [|discriminate].
    injection H as -> -> ->.
    apply map_lookup_filter_Some. split; [eapply W2; eauto|].
    cbn. unfold is_pending_at. rewrite lookup_fmap, Hr. cbn. rewrite E. done.
  - intros k Hk. rewrite lookup_fmap, W3 by done. done.
Qed.

Lemma cm_wf_elapse ms s : cm_wf s -> cm_wf (elapse ms s).
Proof. apply cm_wf_settle, expire_settles. Qed.

Lemma cm_wf_fire_cancel token s : cm_wf s -> cm_wf (fire_cancel token s).
Proof. apply cm_wf_settle, cancel_req_settles. Qed.

Lemma cm_wf_ticket_lt s n k :
  cm_wf s -> cm_waiting s !! n = Some k -> k < cm_next s.
Proof.
  intros (W1 & _ & W3) H. destruct (W1 n k H) as (d & t & Hr).
  destruct (decide (k < cm_next s)) as [|Hge]; [done|].
  rewrite W3 in Hr by lia. discriminate.
Qed.

Lemma cm_wf_waitForCode n tok s :
  cm_wf s -> cm_wf (snd (waitForCode n tok s)).
Proof.
  intros Hwf. pose proof Hwf as (W1 & W2 & W3).
  unfold waitForCode. destruct (cm_waiting s !! n) as [k0|] eqn:Hn;
    unfold cm_wf; cbn; split; [| split | | split].
  - intros n' k H. destruct (W1 n' k H) as (d & t & Hr).
    pose proof (cm_wf_ticket_lt s n' k Hwf H).
    rewrite lookup_insert_ne by lia. eauto.
  - intros k n' d t H. destruct (decide (k = cm_next s)) as [->|Hne].
    + rewrite lookup_insert_eq in H. discriminate.
    + rewrite lookup_insert_ne in H by done. eauto.
  - intros k Hk. rewrite lookup_insert_ne, W3 by lia. done.
  - intros n' k H. destruct (decide (n' = n)) as [->|Hne].
    + rewrite lookup_insert_eq in H. injection H as <-.
      rewrite lookup_insert_eq. eauto.
    + rewrite lookup_insert_ne in H by done.
      destruct (W1 n' k H) as (d & t & Hr).
      pose proof (cm_wf_ticket_lt s n' k Hwf H).
      rewrite lookup_insert_ne by lia. eauto.
  - intros k n' d t H. destruct (decide (k = cm_next s)) as [->|Hne].
    + rewrite lookup_insert_eq in H. injection H as <- _ _.
      rewrite lookup_insert_eq. done.
    + rewrite lookup_insert_ne in H by done.
      pose proof (W2 k n' d t H) as Hw.
      destruct (decide (n' = n)) as [->|Hne']; [congruence|].
      rewrite lookup_insert_ne by done. done.
  - intros k Hk. rewrite lookup_insert_ne, W3 by lia. done.
Qed.

Lemma cm_wf_resolveCode n c s :
  cm_wf s -> cm_wf (snd (resolveCode n c s)).
Proof.
  intros Hwf. pose proof Hwf as (W1 & W2 & W3).
  unfold resolveCode. destruct (cm_waiting s !! n) as [k0|] eqn:Hn; [|done].
  pose proof (cm_wf_ticket_lt s n k0 Hwf Hn) as Hlt.
  destruct (W1 n k0 Hn) as (d0 & t0 & Hr0).
  unfold cm_wf; cbn. split; [|split].
  - intros n' k H. destruct (decide (n' = n)) as [->|Hne].
    + rewrite lookup_delete_eq in H. discriminate.
    + rewrite lookup_delete_ne in H by done.
      destruct (W1 n' k H) as (d & t & Hr).
      destruct (decide (k = k0)) as [->|Hk].
      * rewrite Hr0 in Hr. injection Hr as -> _ _. done.
      * rewrite lookup_insert_ne by done. eauto.
  - intros k n' d t H. destruct (decide (k = k0)) as [->|Hk].
    + rewrite lookup_insert_eq in H. discriminate.
    + rewrite lookup_insert_ne in H by done.
      pose proof (W2 k n' d t H) as Hw.
      destruct (decide (n' = n)) as [->|Hne]; [congruence|].
      rewrite lookup_delete_ne by done. done.
  - intros k Hk. rewrite lookup_insert_ne, W3 by lia. done.
Qed.

End CodeManagerFacts.

Lemma elapse_lookup ms s k :
  cm_reqs (elapse ms s) !! k = expire (cm_now s + ms)%Z <$> cm_reqs s !! k.
Proof. unfold elapse. cbn. apply lookup_fmap. Qed.

Lemma resolveCode_pending s n k c :
  cm_wf s -> cm_waiting s !! n = Some k ->
  resolveCode n c s =
  (inr tt, {| cm_now := cm_now s; cm_waiting := delete n (cm_waiting s);
              cm_reqs := <[k := RDone (Resolved c)]> (cm_reqs s);
              cm_next := cm_next s |}).
Proof. intros _ Hn. unfold resolveCode. rewrite Hn. done. Qed.

(* Two nonces registered at the same time have different tickets. *)
Lemma cm_wf_tickets_distinct s n1 n2 k1 k2 :
  cm_wf s -> n1 <> n2 ->
  cm_waiting s !! n1 = Some k1 -> cm_waiting s !! n2 = Some k2 -> k1 <> k2.
Proof.
  intros (W1 & _ & _) Hne H1 H2 ->.
  destruct (W1 n1 k2 H1) as (d1 & t1 & R1).
  destruct (W1 n2 k2 H2) as (d2 & t2 & R2).
  rewrite R1 in R2. congruence.
Qed.

(** C2: for two distinct nonces with pending requests, resolving [n2]
    before [n1] hands each waiter its own code; resolving one leaves the
    other's request (its deadline included) untouched and still
    registered; when time passes, each request settles by its own record
    alone; and each request's deadline is set at its own registration, 60 s
    after the registration time. *)
Theorem code_manager_distinct_nonces_independent s n1 n2 k1 k2 c1 c2 :
  cm_wf s -> n1 <> n2 ->
  cm_waiting s !! n1 = Some k1 -> cm_waiting s !! n2 = Some k2 ->
  (exists s1 s2,
     resolveCode n2 c2 s = (inr tt, s1) /\ resolveCode n1 c1 s1 = (inr tt, s2) /\
     cm_reqs s2 !! k1 = Some (RDone (Resolved c1)) /\
     cm_reqs s2 !! k2 = Some (RDone (Resolved c2))) /\
  (forall c s', resolveCode n1 c s = (inr tt, s') ->
     cm_reqs s' !! k2 = cm_reqs s !! k2 /\ cm_waiting s' !! n2 = Some k2) /\
  (forall ms, cm_reqs (elapse ms s) !! k1 = expire (cm_now s + ms)%Z <$> cm_reqs s !! k1 /\
              cm_reqs (elapse ms s) !! k2 = expire (cm_now s + ms)%Z <$> cm_reqs s !! k2) /\
  (forall n tok (s0 : CodeManager), cm_waiting s0 !! n = None ->
     cm_reqs (snd (waitForCode n tok s0)) !! cm_next s0 =
     Some (RPending n (cm_now s0 + TIMEOUT_MS)%Z tok)).
Proof.
  intros Hwf Hne H1 H2.
  pose proof (cm_wf_tickets_distinct s n1 n2 k1 k2 Hwf Hne H1 H2) as Hk.
  split; [|split; [|split]].
  - rewrite (resolveCode_pending s n2 k2 c2 Hwf H2).
    set (s1 := {| cm_now := cm_now s; cm_waiting := delete n2 (cm_waiting s);
                  cm_reqs := <[k2 := RDone (Resolved c2)]> (cm_reqs s);
                  cm_next := cm_next s |}).
    assert (Hwf1 : cm_wf s1).
    { pose proof (cm_wf_resolveCode n2 c2 s Hwf) as W.
      rewrite (resolveCode_pending s n2 k2 c2 Hwf H2) in W. exact W. }
    assert (H1' : cm_waiting s1 !! n1 = Some k1).
    { cbn. rewrite lookup_delete_ne by done. done. }
    exists s1. rewrite (resolveCode_pending s1 n1 k1 c1 Hwf1 H1').
    eexists. split; [reflexivity|]. split; [reflexivity|]. cbn.
    rewrite lookup_insert_eq. split; [done|].
    rewrite lookup_insert_ne, lookup_insert_eq by done. done.
  - intros c s' Hres. rewrite (resolveCode_pending s n1 k1 c Hwf H1) in Hres.
    injection Hres as <-. cbn.
    rewrite lookup_insert_ne, lookup_delete_ne by congruence. done.
  - intros ms. rewrite !elapse_lookup. done.
  - intros n tok s0 Hn. unfold waitForCode. rewrite Hn. cbn.
    rewrite lookup_insert_eq. done.
Qed.

(* Once settled, a promise keeps its outcome under every operation. *)
Lemma settled_stays_elapse ms s k o :
  cm_reqs s !! k = Some (RDone o) -> cm_reqs (elapse ms s) !! k = Some (RDone o).
Proof. intros H. rewrite elapse_lookup, H. done. Qed.

(* A pending request settles with [Timeout] exactly when its deadline is
   reached. *)
Lemma elapse_pending ms s k n d t :
  cm_reqs s !! k = Some (RPending n d t) ->
  cm_reqs (elapse ms s) !! k =
  Some (if bool_decide (d <= cm_now s + ms)%Z then RDone (Failed Timeout)
        else RPending n d t).
Proof. intros H. rewrite elapse_lookup, H. done. Qed.

(** C7: a request registered for a fresh nonce fails with [Timeout] once
    60 s have elapsed since its registration (so after 60.001 s), while a
    [resolveCode] arriving before the deadline (so at 59.999 s) resolves it
    with its code, for good. More generally, any request still pending
    (neither resolved nor cancelled) has failed with [Timeout] as soon as
    the clock reaches its deadline. *)
Theorem waitForCode_timeout_after_60s s n tok :
  cm_wf s -> cm_waiting s !! n = None ->
  let k := cm_next s in
  let s1 := snd (waitForCode n tok s) in
  fst (waitForCode n tok s) = inr k /\
  (forall ms, (TIMEOUT_MS <= ms)%Z ->
     cm_reqs (elapse ms s1) !! k = Some (RDone (Failed Timeout))) /\
  (forall ms c, (ms < TIMEOUT_MS)%Z ->
     exists s2, resolveCode n c (elapse ms s1) = (inr tt, s2) /\
       cm_reqs s2 !! k = Some (RDone (Resolved c)) /\
       forall ms', cm_reqs (elapse ms' s2) !! k = Some (RDone (Resolved c))) /\
  cm_reqs (elapse 60001 s1) !! k = Some (RDone (Failed Timeout)) /\
  (forall c, exists s2, resolveCode n c (elapse 59999 s1) = (inr tt, s2) /\
     cm_reqs s2 !! k = Some (RDone (Resolved c))) /\
  (forall (s' : CodeManager) k' n' d t ms,
     cm_reqs s' !! k' = Some (RPending n' d t) -> (d <= cm_now s' + ms)%Z ->
     cm_reqs (elapse ms s') !! k' = Some (RDone (Failed Timeout))).
Proof.
  intros Hwf Hn k s1.
  assert (Hr1 : cm_reqs s1 !! k = Some (RPending n (cm_now s + TIMEOUT_MS)%Z tok)).
  { subst s1 k. unfold waitForCode. rewrite Hn. cbn. apply lookup_insert_eq. }
  assert (Hw1 : cm_waiting s1 !! n = Some k).
  { subst s1 k. unfold waitForCode. rewrite Hn. cbn. apply lookup_insert_eq. }
  assert (Hnow : cm_now s1 = cm_now s).
  { subst s1. unfold waitForCode. rewrite Hn. done. }
  assert (Htimeout : forall ms, (TIMEOUT_MS <= ms)%Z ->
            cm_reqs (elapse ms s1) !! k = Some (RDone (Failed Timeout))).
  { intros ms Hms. rewrite (elapse_pending ms s1 k _ _ _ Hr1), Hnow.
    rewrite bool_decide_true by lia. done. }
  assert (Hresolve : forall ms c, (ms < TIMEOUT_MS)%Z ->
            exists s2, resolveCode n c (elapse ms s1) = (inr tt, s2) /\
              cm_reqs s2 !! k = Some (RDone (Resolved c)) /\
              forall ms', cm_reqs (elapse ms' s2) !! k = Some (RDone (Resolved c))).
  { intros ms c Hms.
    assert (Hpend : cm_reqs (elapse ms s1) !! k = Some (RPending n (cm_now s + TIMEOUT_MS)%Z tok)).
    { rewrite (elapse_pending ms s1 k _ _ _ Hr1), Hnow.
      rewrite bool_decide_false by lia. done. }
    assert (Hw2 : cm_waiting (elapse ms s1) !! n = Some k).
    { unfold elapse. cbn. unfold prune. apply map_lookup_filter_Some.
      split; [done|]. cbn. unfold is_pending_at.
      change (cm_reqs (elapse ms s1) !! k = Some (RPending n (cm_now s + TIMEOUT_MS)%Z tok)) in Hpend.
      unfold elapse in Hpend. cbn in Hpend. rewrite Hpend. done. }
    unfold resolveCode. rewrite Hw2. eexists. split; [reflexivity|].
    cbn. rewrite lookup_insert_eq. split; [done|].
    intros ms'. rewrite lookup_fmap, lookup_insert_eq. done. }
  split; [|split; [exact Htimeout|split; [exact Hresolve|split; [|split]]]].
  - subst s1 k. unfold waitForCode. rewrite Hn. done.
  - apply Htimeout. unfold TIMEOUT_MS. lia.
  - intros c. destruct (Hresolve 59999%Z c) as (s2 & H1 & H2 & _);
      [unfold TIMEOUT_MS; lia|]. eauto.
  - intros s' k' n' d t ms Hr Hd. rewrite (elapse_pending ms s' k' n' d t Hr).
    rewrite bool_decide_true by done. done.
Qed.

(** C8: the code manager's misuse errors leave the pending set alone. A
    [waitForCode] on a nonce already registered returns a promise that
    fails with [AlreadyWaiting] and changes no registration, no clock and
    no other promise, so every other request settles (in particular times
    out) exactly as it would have without the call; a [resolveCode] on a
    nonce with no pending request throws [UnknownNonce] and leaves the
    manager unchanged. *)
Theorem code_manager_misuse_errors_leave_pending s n tok c :
  (is_Some (cm_waiting s !! n) ->
     let s' := snd (waitForCode n tok s) in
     fst (waitForCode n tok s) = inr (cm_next s) /\
     cm_reqs s' !! cm_next s = Some (RDone (Failed AlreadyWaiting)) /\
     cm_waiting s' = cm_waiting s /\ cm_now s' = cm_now s /\
     (forall k, k <> cm_next s -> cm_reqs s' !! k = cm_reqs s !! k) /\
     (forall ms k, k <> cm_next s ->
        cm_reqs (elapse ms s') !! k = cm_reqs (elapse ms s) !! k)) /\
  (cm_waiting s !! n = None -> resolveCode n c s = (inl UnknownNonce, s)).
Proof.
  split.
  - intros [k0 Hk0] s'. subst s'. unfold waitForCode. rewrite Hk0. cbn.
    split; [done|]. split; [apply lookup_insert_eq|].
    split; [done|]. split; [done|]. split.
    + intros k Hk. rewrite lookup_insert_ne by done. done.
    + intros ms k Hk. cbn. rewrite !lookup_fmap, lookup_insert_ne by done.
      done.
  - intros Hn. unfold resolveCode. rewrite Hn. done.
Qed.

(* ------------------------------------------------------------------ *)
(* Concrete code manager runs                                          *)
(* ------------------------------------------------------------------ *)

(* Nonce "1" registered at t = 0, nonce "2" at t = 30 s. *)
Definition ex_cm_two : CodeManager :=
  snd (waitForCode "2" 0
         (elapse 30000 (snd (waitForCode "1" 0 (code_manager_init 0))))).

Lemma ex_cm_two_wf : cm_wf ex_cm_two.
Proof.
  apply cm_wf_waitForCode, cm_wf_elapse, cm_wf_waitForCode, cm_wf_init.
Qed.

Lemma code_manager_distinct_nonces_independent_witness :
  cm_wf ex_cm_two /\ "1" <> "2" /\
  cm_waiting ex_cm_two !! "1" = Some 0 /\ cm_waiting ex_cm_two !! "2" = Some 1 /\
  exists s1 s2,
    resolveCode "2" "99" ex_cm_two = (inr tt, s1) /\
    resolveCode "1" "42" s1 = (inr tt, s2) /\
    cm_reqs s2 !! 0 = Some (RDone (Resolved "42")) /\
    cm_reqs s2 !! 1 = Some (RDone (Resolved "99")).
Proof.
  assert (H1 : cm_waiting ex_cm_two !! "1" = Some 0) by (vm_compute; reflexivity).
  assert (H2 : cm_waiting ex_cm_two !! "2" = Some 1) by (vm_compute; reflexivity).
  split; [exact ex_cm_two_wf|]. split; [discriminate|].
  split; [exact H1|]. split; [exact H2|].
  apply (code_manager_distinct_nonces_independent ex_cm_two "1" "2" 0 1 "42" "99"
           ex_cm_two_wf ltac:(discriminate) H1 H2).
Defined.

Lemma waitForCode_timeout_after_60s_witness :
  cm_wf (code_manager_init 0) /\ cm_waiting (code_manager_init 0) !! "1" = None /\
  cm_reqs (elapse 60001 (snd (waitForCode "1" 0 (code_manager_init 0)))) !! 0
  = Some (RDone (Failed Timeout)).
Proof.
  assert (Hn : cm_waiting (code_manager_init 0) !! "1" = None) by reflexivity.
  split; [apply cm_wf_init|]. split; [exact Hn|].
  destruct (waitForCode_timeout_after_60s (code_manager_init 0) "1" 0
              (cm_wf_init 0) Hn) as (_ & _ & _ & H & _).
  exact H.
Defined.

Lemma code_manager_misuse_errors_leave_pending_witness :
  is_Some (cm_waiting (snd (waitForCode "1" 0 (code_manager_init 0))) !! "1") /\
  cm_waiting (snd (waitForCode "1" 0 (code_manager_init 0))) !! "unknown" = None /\
  resolveCode "unknown" "42" (snd (waitForCode "1" 0 (code_manager_init 0))) =
  (inl UnknownNonce, snd (waitForCode "1" 0 (code_manager_init 0))) /\
  cm_reqs (snd (waitForCode "1" 0 (snd (waitForCode "1" 0 (code_manager_init 0)))))
    !! 1 = Some (RDone (Failed AlreadyWaiting)).
Proof.
  assert (Hs : is_Some (cm_waiting (snd (waitForCode "1" 0 (code_manager_init 0))) !! "1"))
    by (vm_compute; eexists; reflexivity).
  assert (Hn : cm_waiting (snd (waitForCode "1" 0 (code_manager_init 0))) !! "unknown" = None)
    by (vm_compute; reflexivity).
  destruct (code_manager_misuse_errors_leave_pending
              (snd (waitForCode "1" 0 (code_manager_init 0))) "1" 0 "42") as [Ha _].
  destruct (code_manager_misuse_errors_leave_pending
              (snd (waitForCode "1" 0 (code_manager_init 0))) "unknown" 0 "42") as [_ Hb].
  split; [exact Hs|]. split; [exact Hn|]. split; [exact (Hb Hn)|].
  destruct (Ha Hs) as (_ & H & _). exact H.
Defined.

(* ------------------------------------------------------------------ *)
(* Assignment manager: src/jupyter/assignments.ts                      *)
(* ------------------------------------------------------------------ *)

Inductive Variant := DEFAULT | GPU | TPU.

Record RuntimeProxyInfo := {
  rp_token : string;
  tokenExpiresInSeconds : Z;
  rp_url : string;
}.

(* The remote assignment API's answer (fields the manager reads). *)
Record Assignment := {
  a_accelerator : option string;
  a_endpoint : string;
  a_variant : Variant;
  runtimeProxyInfo : option RuntimeProxyInfo;
}.

(* src/jupyter/servers.ts *)
Record ColabServerDescriptor := {
  d_label : string;
  d_variant : Variant;
  d_accelerator : option string;
}.

Record ConnectionInformation := {
  baseUrl : string;
  token : string;
  tokenExpiry : Z;
  headers : list (string * string);
}.

(* A [ColabAssignedServer] without its [fetch]: what server storage holds. *)
Record ServerRecord := {
  id : string;
  label : string;
  variant : Variant;
  accelerator : option string;
  endpoint : string;
  connectionInformation : ConnectionInformation;
  dateAssigned : Z;
}.

(* An outbound HTTP request as handed to the network. *)
Record Request := { url : string; req_headers : list (string * string) }.

(* A [ColabAssignedServer]: the record and its
   [connectionInformation.fetch]. *)
Record ColabAssignedServer := {
  server : ServerRecord;
  fetch : Request -> Request;
}.

Record AssignmentChangeEvent := {
  added : list ColabAssignedServer;
  removed : list (ColabAssignedServer * bool);  (* server, userInitiated *)
  changed : list ColabAssignedServer;
}.

Inductive AssignmentEffect :=
| CallAssign (id : string) (variant : Variant) (accelerator : option string)
| StorageStore (servers : list ServerRecord)
| EmitChange (e : AssignmentChangeEvent).

Record AssignmentWorld := {
  aw_now : Z;                          (* Date.now() in ms *)
  aw_storage : list ServerRecord;      (* the persisted collection *)
  aw_log : list AssignmentEffect;      (* remote calls, writes, events *)
}.

Definition CLIENT_AGENT : string := "vscode".
Definition PROXY_TOKEN_HEADER : string := "X-Colab-Runtime-Proxy-Token".
Definition CLIENT_AGENT_HEADER : string := "X-Colab-Client-Agent".

(** Modelled from the spec: the headers of a server's connection
    information, regenerated from its token. *)
Definition colabHeaders (tok : string) : list (string * string) :=
  [(PROXY_TOKEN_HEADER, tok); (CLIENT_AGENT_HEADER, CLIENT_AGENT)].

(** Modelled from the spec: the bound [fetch] injects the runtime-proxy
    token header and the client-agent header on every call, over whatever
    headers the caller passed. *)
Definition colabFetch (tok : string) (req : Request) : Request :=
  {| url := url req;
     req_headers := colabHeaders tok ++
       filter (fun kv => kv.1 <> PROXY_TOKEN_HEADER /\ kv.1 <> CLIENT_AGENT_HEADER)
              (req_headers req) |}.

(** Modelled from the spec: [fetch] is never persisted; it is rebuilt from
    the record's token. *)
Definition withFetch (r : ServerRecord) : ColabAssignedServer :=
  {| server := r; fetch := colabFetch (token (connectionInformation r)) |}.

(* The value of the first header of a name. *)
Fixpoint header_value (hs : list (string * string)) (name : string)
    : option string :=
  match hs with
  | [] => None
  | (k, v) :: rest => if bool_decide (k = name) then Some v else header_value rest name
  end.

(* Replace the record of the same id, or append it. *)
Definition upsert (r : ServerRecord) (rs : list ServerRecord) : list ServerRecord :=
  if bool_decide (Exists (fun x => id x = id r) rs)
  then map (fun x => if bool_decide (id x = id r) then r else x) rs
  else rs ++ [r].

Definition with_connection (r : ServerRecord) (ci : ConnectionInformation)
    : ServerRecord :=
  {| id := id r; label := label r; variant := variant r;
     accelerator := accelerator r; endpoint := endpoint r;
     connectionInformation := ci; dateAssigned := dateAssigned r |}.

Section AssignmentManager.

(* The remote assignment API ([ColabClient.assign]): the settled promise
   of an assignment request. *)
Variable assign : string -> Variant -> option string -> Err + Assignment.

Definition aw_record (ev : AssignmentEffect) : M AssignmentWorld unit :=
  modify (fun w => {| aw_now := aw_now w; aw_storage := aw_storage w;
                      aw_log := (aw_log w ++ [ev])%list |}).

Definition callAssign (i : string) (v : Variant) (acc : option string)
    : M AssignmentWorld Assignment :=
  aw_record (CallAssign i v acc);;
  await (assign i v acc).

Definition storageList : M AssignmentWorld (list ServerRecord) :=
  gets aw_storage.

Definition storageStore (rs : list ServerRecord) : M AssignmentWorld unit :=
  fun w => (inr tt, {| aw_now := aw_now w; aw_storage := rs;
                       aw_log := (aw_log w ++ [StorageStore rs])%list |}).

Definition emitChange (e : AssignmentChangeEvent) : M AssignmentWorld unit :=
  aw_record (EmitChange e).

(** Modelled from the spec: the connection info of an assignment response
    must have a proxy info with a non-empty URL and a non-empty token. *)
Definition requireProxyInfo (a : Assignment) : M AssignmentWorld RuntimeProxyInfo :=
  match runtimeProxyInfo a with
  | Some rp =>
      if bool_decide (rp_url rp = "") || bool_decide (rp_token rp = "")
      then throw MissingConnectionInfo
      else mret rp
  | None => throw MissingConnectionInfo
  end.

Definition connectionOf (rp : RuntimeProxyInfo) (baseUrl0 : string) (now : Z)
    : ConnectionInformation :=
  {| baseUrl := baseUrl0; token := rp_token rp;
     tokenExpiry := (now + tokenExpiresInSeconds rp * 1000)%Z;
     headers := colabHeaders (rp_token rp) |}.

(** Modelled from the spec: [assignServer(id, descriptor)]. *)
Definition assignServer (i : string) (descriptor : ColabServerDescriptor)
    : M AssignmentWorld ColabAssignedServer :=
  a ← callAssign i (d_variant descriptor) (d_accelerator descriptor);
  rp ← requireProxyInfo a;
  now ← gets aw_now;
  let r := {| id := i; label := d_label descriptor; variant := d_variant descriptor;
              accelerator := d_accelerator descriptor; endpoint := a_endpoint a;
              connectionInformation := connectionOf rp (rp_url rp) now;
              dateAssigned := now |} in
  stored ← storageList;
  storageStore (upsert r stored);;
  emitChange {| added := [withFetch r]; removed := []; changed := [] |};;
  mret (withFetch r).

(** Modelled from the spec: [refreshConnection(server)]. *)
Definition refreshConnection (srv : ColabAssignedServer)
    : M AssignmentWorld ColabAssignedServer :=
  let r := server srv in
  a ← callAssign (id r) (variant r) (accelerator r);
  rp ← requireProxyInfo a;
  now ← gets aw_now;
  let r' := with_connection r
              (connectionOf rp (baseUrl (connectionInformation r)) now) in
  stored ← storageList;
  storageStore (upsert r' stored);;
  emitChange {| added := []; removed := []; changed := [withFetch r'] |};;
  mret (withFetch r').

(** Modelled from the spec: [assignedServers()]. *)
Definition assignedServers : M AssignmentWorld (list ColabAssignedServer) :=
  stored ← storageList;
  mret (withFetch <$> stored).

End AssignmentManager.

(* ------------------------------------------------------------------ *)
(* Facts about the assignment manager                                  *)
(* ------------------------------------------------------------------ *)

Definition injects_colab_headers (srv : ColabAssignedServer) : Prop :=
  forall req,
    header_value (req_headers (fetch srv req)) PROXY_TOKEN_HEADER =
      Some (token (connectionInformation (server srv))) /\
    header_value (req_headers (fetch srv req)) CLIENT_AGENT_HEADER =
      Some CLIENT_AGENT.

Lemma withFetch_injects r : injects_colab_headers (withFetch r).
Proof.
  intros req. cbn. unfold PROXY_TOKEN_HEADER, CLIENT_AGENT_HEADER.
  rewrite bool_decide_true by done. split; [done|].
  rewrite bool_decide_false by done. rewrite bool_decide_true by done. done.
Qed.

Ltac unfold_assignments :=
  unfold assignServer, refreshConnection, assignedServers, callAssign,
    storageList, storageStore, emitChange, aw_record, requireProxyInfo in *;
  unfold_monad.

Section AssignmentFacts.

Variable assign : string -> Variant -> option string -> Err + Assignment.

(** C4: when the assignment response has no runtime proxy info, or its
    URL or its token is empty, [assignServer] fails with
    [MissingConnectionInfo]; the remote call is its only effect: server
    storage is neither written nor changed, and no change event is
    emitted. *)
Theorem assignServer_missing_connection_info i desc w a :
  assign i (d_variant desc) (d_accelerator desc) = inr a ->
  (runtimeProxyInfo a = None \/
   exists rp, runtimeProxyInfo a = Some rp /\ (rp_url rp = "" \/ rp_token rp = "")) ->
  assignServer assign i desc w =
  (inl MissingConnectionInfo,
   {| aw_now := aw_now w; aw_storage := aw_storage w;
      aw_log := (aw_log w ++ [CallAssign i (d_variant desc) (d_accelerator desc)])%list |}).
Proof.
  intros Ha Hmiss. unfold_assignments. cbn. rewrite Ha. cbn.
  destruct Hmiss as [-> | (rp & -> & [Hu|Ht])]; [done| |].
  - rewrite (bool_decide_true (rp_url rp = "")) by done. done.
  - rewrite (bool_decide_true (rp_token rp = "")) by done.
    rewrite orb_true_r. done.
Qed.

(** C5: [refreshConnection] calls the remote assignment API again with the
    server's id, variant and accelerator and returns, persists and
    announces a record that differs from the old one only in its
    connection information: the new token, headers regenerated from it and
    the same base URL. The effects are the call, one storage write of the
    collection with this record, and exactly one change event with this
    server in [changed]. *)
Theorem refreshConnection_replaces_only_connection srv w a rp :
  assign (id (server srv)) (variant (server srv)) (accelerator (server srv)) = inr a ->
  runtimeProxyInfo a = Some rp -> rp_url rp <> "" -> rp_token rp <> "" ->
  exists r',
    refreshConnection assign srv w =
      (inr (withFetch r'),
       {| aw_now := aw_now w; aw_storage := upsert r' (aw_storage w);
          aw_log := (aw_log w ++
                     [CallAssign (id (server srv)) (variant (server srv))
                                 (accelerator (server srv));
                      StorageStore (upsert r' (aw_storage w));
                      EmitChange {| added := []; removed := [];
                                    changed := [withFetch r'] |}])%list |}) /\
    r' = with_connection (server srv) (connectionInformation r') /\
    token (connectionInformation r') = rp_token rp /\
    headers (connectionInformation r') = colabHeaders (rp_token rp) /\
    baseUrl (connectionInformation r') = baseUrl (connectionInformation (server srv)) /\
    r' ∈ upsert r' (aw_storage w).
Proof.
  intros Ha Hrp Hu Ht. unfold_assignments. cbn. rewrite Ha. cbn.
  rewrite Hrp, !bool_decide_false by done. cbn.
  exists (with_connection (server srv)
            (connectionOf rp (baseUrl (connectionInformation (server srv))) (aw_now w))).
  split; [rewrite <- !(assoc_L app); reflexivity|].
  split; [reflexivity|]. cbn. split; [done|]. split; [done|]. split; [done|].
  unfold upsert. case_bool_decide as Hex.
  - apply Exists_exists in Hex as (x & Hx & Hid).
    apply list_elem_of_In, in_map_iff. exists x. split; [|by apply list_elem_of_In].
    rewrite bool_decide_true by done. done.
  - apply list_elem_of_In, in_or_app. right. left. done.
Qed.

(** C6: every server record returned by [assignServer],
    [refreshConnection] or [assignedServers] has a [fetch] whose outbound
    requests carry [X-Colab-Runtime-Proxy-Token] set to the record's token
    and [X-Colab-Client-Agent] set to the client name. *)
Theorem colab_servers_fetch_injects_headers :
  (forall i desc w srv w', assignServer assign i desc w = (inr srv, w') ->
     injects_colab_headers srv) /\
  (forall s0 w srv w', refreshConnection assign s0 w = (inr srv, w') ->
     injects_colab_headers srv) /\
  (forall w l w', assignedServers w = (inr l, w') ->
     Forall injects_colab_headers l).
Proof.
  split; [|split].
  - intros i desc w srv w' H. unfold_assignments. cbn in H.
    destruct (assign _ _ _) as [e|a]; cbn in H; [discriminate|].
    destruct (runtimeProxyInfo a) as [rp|]; cbn in H; [|discriminate].
    destruct (bool_decide _ || bool_decide _); cbn in H; [discriminate|].
    injection H as <- _. apply withFetch_injects.
  - intros s0 w srv w' H. unfold_assignments. cbn in H.
    destruct (assign _ _ _) as [e|a]; cbn in H; [discriminate|].
    destruct (runtimeProxyInfo a) as [rp|]; cbn in H; [|discriminate].
    destruct (bool_decide _ || bool_decide _); cbn in H; [discriminate|].
    injection H as <- _. apply withFetch_injects.
  - intros w l w' H. unfold_assignments. cbn in H. injection H as <- _.
    apply Forall_fmap, Forall_forall. intros r _. apply withFetch_injects.
Qed.

End AssignmentFacts.

(* ------------------------------------------------------------------ *)
(* Concrete assignment manager runs                                    *)
(* ------------------------------------------------------------------ *)

Definition ex_descriptor : ColabServerDescriptor :=
  {| d_label := "Colab GPU A100"; d_variant := GPU; d_accelerator := Some "A100" |}.

Definition ex_proxy (tok url0 : string) : RuntimeProxyInfo :=
  {| rp_token := tok; tokenExpiresInSeconds := 42; rp_url := url0 |}.

Definition ex_assignment (rp : option RuntimeProxyInfo) : Assignment :=
  {| a_accelerator := Some "A100"; a_endpoint := "mock-endpoint";
     a_variant := GPU; runtimeProxyInfo := rp |}.

Definition ex_assign (rp : option RuntimeProxyInfo)
    : string -> Variant -> option string -> Err + Assignment :=
  fun _ _ _ => inr (ex_assignment rp).

Definition ex_aw : AssignmentWorld :=
  {| aw_now := 0; aw_storage := []; aw_log := [] |}.

Definition ex_record : ServerRecord :=
  {| id := "8f14e45f-ceea-467f-a0c2-2d2a4b3b9f6e"; label := "Colab GPU A100";
     variant := GPU; accelerator := Some "A100"; endpoint := "mock-endpoint";
     connectionInformation :=
       {| baseUrl := "https://example.com"; token := "mock-token";
          tokenExpiry := 42000; headers := colabHeaders "mock-token" |};
     dateAssigned := 0 |}.

Lemma assignServer_missing_connection_info_witness :
  assignServer (ex_assign (Some (ex_proxy "mock-token" ""))) "id1" ex_descriptor ex_aw =
  (inl MissingConnectionInfo,
   {| aw_now := 0; aw_storage := [];
      aw_log := [CallAssign "id1" GPU (Some "A100")] |}).
Proof.
  apply (assignServer_missing_connection_info
           (ex_assign (Some (ex_proxy "mock-token" ""))) "id1" ex_descriptor ex_aw
           (ex_assignment (Some (ex_proxy "mock-token" "")))).
  - reflexivity.
  - right. exists (ex_proxy "mock-token" ""). split; [reflexivity|]. left; reflexivity.
Defined.

Lemma refreshConnection_replaces_only_connection_witness :
  exists r',
    fst (refreshConnection (ex_assign (Some (ex_proxy "new-token" "https://example.com")))
           (withFetch ex_record) {| aw_now := 0; aw_storage := [ex_record]; aw_log := [] |})
    = inr (withFetch r') /\
    token (connectionInformation r') = "new-token" /\
    baseUrl (connectionInformation r') = "https://example.com".
Proof.
  destruct (refreshConnection_replaces_only_connection
              (ex_assign (Some (ex_proxy "new-token" "https://example.com")))
              (withFetch ex_record) {| aw_now := 0; aw_storage := [ex_record]; aw_log := [] |}
              (ex_assignment (Some (ex_proxy "new-token" "https://example.com")))
              (ex_proxy "new-token" "https://example.com")
              eq_refl eq_refl ltac:(discriminate) ltac:(discriminate))
    as (r' & Hrun & _ & Htok & _ & Hbase & _).
  exists r'. rewrite Hrun. split; [reflexivity|]. split; [exact Htok|exact Hbase].
Defined.

Lemma colab_servers_fetch_injects_headers_witness :
  exists srv w',
    assignServer (ex_assign (Some (ex_proxy "mock-token" "https://example.com")))
      "id1" ex_descriptor ex_aw = (inr srv, w') /\
    injects_colab_headers srv.
Proof.
  destruct (colab_servers_fetch_injects_headers
              (ex_assign (Some (ex_proxy "mock-token" "https://example.com"))))
    as (H & _ & _).
  destruct (assignServer (ex_assign (Some (ex_proxy "mock-token" "https://example.com")))
              "id1" ex_descriptor ex_aw) as [[e|srv] w'] eqn:E.
  - vm_compute in E. discriminate.
  - exists srv, w'. split; [reflexivity|]. eapply H. exact E.
Defined.

(* ------------------------------------------------------------------ *)
(* Further facts about the login orchestrator                          *)
(* ------------------------------------------------------------------ *)

Lemma string_app_assoc (s1 s2 s3 : string) : (s1 ++ s2) ++ s3 = s1 ++ s2 ++ s3.
Proof.
  induction s1 as [|c s1 IH]; [done|].
  change (String c ((s1 ++ s2) ++ s3) = String c (s1 ++ s2 ++ s3)). by rewrite IH.
Qed.

Definition is_trigger (ev : LoginEvent) : bool :=
  match ev with EvTrigger _ _ => true | _ => false end.

Definition after_error (ev : LoginEvent) : bool :=
  match ev with EvShowError _ => true | _ => false end.

(* [prompts_ok b l]: reading [l] from the left, every prompt comes right
   after an error notification; [b] says whether the event before [l]
   was one. *)
Fixpoint prompts_ok (b : bool) (l : list LoginEvent) : Prop :=
  match l with
  | [] => True
  | ev :: rest => (ev = EvPrompt -> b = true) /\ prompts_ok (after_error ev) rest
  end.

Fixpoint end_state (b : bool) (l : list LoginEvent) : bool :=
  match l with [] => b | ev :: rest => end_state (after_error ev) rest end.

Lemma prompts_ok_app b l1 l2 :
  prompts_ok b l1 -> prompts_ok (end_state b l1) l2 -> prompts_ok b (l1 ++ l2).
Proof.
  revert b. induction l1 as [|ev l1 IH]; intros b; cbn; [done|].
  intros [H1 H2] H3. split; [done|]. by apply IH.
Qed.

Lemma prompts_ok_no_prompt b l : EvPrompt ∉ l -> prompts_ok b l.
Proof.
  revert b. induction l as [|ev l IH]; intros b Hn; cbn; [done|].
  rewrite not_elem_of_cons in Hn. destruct Hn as [Hne Hn].
  split; [intros ->; done|]. by apply IH.
Qed.

Lemma prompts_ok_spec b l i :
  prompts_ok b l -> l !! i = Some EvPrompt ->
  (i = 0 /\ b = true) \/ exists j m, i = S j /\ l !! j = Some (EvShowError m).
Proof.
  revert b i. induction l as [|ev l IH]; intros b i Hok Hi; [done|].
  destruct Hok as [Hb Hok]. destruct i as [|i]; cbn in Hi.
  - injection Hi as ->. left. split; [done|]. by apply Hb.
  - right. destruct (IH _ i Hok Hi) as [[-> Ha]|(j & m & -> & Hj)].
    + destruct ev; try discriminate. eexists 0, _. split; reflexivity.
    + exists (S j), m. split; done.
Qed.

Ltac no_prompt :=
  let Hin := fresh "Hin" in
  intros Hin; repeat (apply elem_of_cons in Hin as [Hin|Hin]; [discriminate|]);
  apply elem_of_nil in Hin; exact Hin.

(* What one attempt does to the world: it answers no prompt, emits one
   trigger and no prompt, and returns only complete credentials. *)
Lemma attempt_effects client scopes0 flow w r w' :
  attempt client scopes0 flow w = (r, w') ->
  answers w' = answers w /\
  (exists delta, trace w' = (trace w ++ delta)%list /\ (EvPrompt ∉ delta) /\
                 length (List.filter is_trigger delta) = 1) /\
  (forall c, r = inr c -> isDefinedCredentials c = true).
Proof.
  unfold attempt, exchangeCodeForCredentials. unfold_monad. cbn.
  destruct (trigger flow _) as [e|fr]; cbn.
  { intros [= <- <-]. cbn. split; [done|]. split; [|done].
    eexists. split; [rewrite <- (assoc_L app); reflexivity|].
    split; [no_prompt|done]. }
  destruct (getToken client _) as [e|resp]; cbn.
  { intros [= <- <-]. cbn. split; [done|]. split; [|done].
    eexists. split; [rewrite <- !(assoc_L app); reflexivity|].
    split; [no_prompt|done]. }
  destruct (res resp) as [g|]; cbn.
  2:{ intros [= <- <-]. cbn. split; [done|]. split; [|done].
      eexists. split; [rewrite <- !(assoc_L app); reflexivity|].
      split; [no_prompt|done]. }
  case_bool_decide; cbn.
  2:{ intros [= <- <-]. cbn. split; [done|]. split; [|done].
      eexists. split; [rewrite <- !(assoc_L app); reflexivity|].
      split; [no_prompt|done]. }
  destruct (isDefinedCredentials (tokens resp)) eqn:Hdef; cbn.
  2:{ intros [= <- <-]. cbn. split; [done|]. split; [|done].
      eexists. split; [rewrite <- !(assoc_L app); reflexivity|].
      split; [no_prompt|done]. }
  destruct (disposable fr) as [d|]; cbn; intros [= <- <-]; cbn;
    (split; [done|]); (split; [|intros c [= <-]; done]);
    eexists; (split; [rewrite <- !(assoc_L app); reflexivity|]);
    (split; [no_prompt|done]).
Qed.

Definition attempt_failed_msg (e : Err) : string :=
  "Sign-in attempt failed: " ++ message e ++ ".".

(* The loop: the prompt shown before a flow other than [flows[0]] comes
   right after the previous attempt's error notification; each iteration
   triggers at most one flow; a returned credential is complete. *)
Lemma login_loop_effects client scopes0 first l : forall w b,
  (forall f, head l = Some f -> flow_ref f <> flow_ref first -> b = true) ->
  let '(r, w') := login_loop client scopes0 first l w in
  (exists delta, trace w' = (trace w ++ delta)%list /\ prompts_ok b delta /\
                 length (List.filter is_trigger delta) <= length l) /\
  (forall c, r = inr (Some c) -> isDefinedCredentials c = true).
Proof.
  induction l as [|f rest IH]; intros w b Hb.
  { cbn. split; [|done]. exists []. rewrite app_nil_r. done. }
  cbn [login_loop]. unfold loop_body, promptIfFallback, showPrompt. unfold_monad.
  case_bool_decide as Href; cbn [negb].
  - cbn.
    destruct (attempt client scopes0 f w) as [r1 w1] eqn:Ea.
    destruct (attempt_effects _ _ _ _ _ _ Ea) as (Hans & (d & Hd & Hnp & Hcnt) & Hok).
    destruct r1 as [e|c]; cbn.
    + specialize (IH {| answers := answers w1; next_id := next_id w1;
                        trace := (trace w1 ++ [EvShowError
                                  ("Sign-in attempt failed: " ++ message e ++ ".")])%list |}
                    true (fun _ _ _ => eq_refl)).
      destruct (login_loop client scopes0 first rest _) as [r2 w2].
      destruct IH as ((d2 & Hd2 & Hok2 & Hc2) & Hres). split; [|done].
      exists (d ++ [EvShowError ("Sign-in attempt failed: " ++ message e ++ ".")] ++ d2)%list.
      split; [rewrite Hd2; cbn; rewrite Hd; rewrite <- !(assoc_L app); done|].
      split.
      * apply prompts_ok_app; [by apply prompts_ok_no_prompt|]. cbn. split; [done|]. done.
      * rewrite !List.filter_app, !length_app, Hcnt. cbn. lia.
    + split; [|intros c' [= <-]; by apply Hok].
      exists d. split; [done|]. split; [by apply prompts_ok_no_prompt|]. cbn. lia.
  - assert (b = true) as -> by (apply (Hb f); done).
    set (w0 := {| answers := tail (answers w); next_id := next_id w;
                  trace := (trace w ++ [EvPrompt])%list |}).
    case_bool_decide as Hyes; cbn.
    + destruct (attempt client scopes0 f w0) as [r1 w1] eqn:Ea.
      destruct (attempt_effects _ _ _ _ _ _ Ea) as (Hans & (d & Hd & Hnp & Hcnt) & Hok).
      destruct r1 as [e|c]; cbn.
      * specialize (IH {| answers := answers w1; next_id := next_id w1;
                          trace := (trace w1 ++ [EvShowError
                                    ("Sign-in attempt failed: " ++ message e ++ ".")])%list |}
                      true (fun _ _ _ => eq_refl)).
        destruct (login_loop client scopes0 first rest _) as [r2 w2].
        destruct IH as ((d2 & Hd2 & Hok2 & Hc2) & Hres). split; [|done].
        exists ([EvPrompt] ++ d ++ [EvShowError ("Sign-in attempt failed: " ++ message e ++ ".")] ++ d2)%list.
        split; [rewrite Hd2; cbn; rewrite Hd; subst w0; cbn; rewrite <- !(assoc_L app); done|].
        split.
        -- cbn. split; [done|]. apply prompts_ok_app; [by apply prompts_ok_no_prompt|].
           cbn. split; [done|]. done.
        -- cbn. rewrite !List.filter_app, !length_app, Hcnt. cbn. lia.
      * split; [|intros c' [= <-]; by apply Hok].
        exists ([EvPrompt] ++ d)%list.
        split; [rewrite Hd; subst w0; cbn; rewrite <- !(assoc_L app); done|].
        split; [cbn; split; [done|]; by apply prompts_ok_no_prompt|]. cbn. lia.
    + split; [|done]. exists [EvPrompt]. split; [done|]. cbn. split; [done|lia].
Qed.

(** The fallback prompt is only ever shown right after a failed attempt
    has been reported: in the events a [login] adds, every "try a
    different method?" prompt comes immediately after an error
    notification, and at most one flow is triggered per entry of the flow
    list. *)
Theorem login_prompt_only_after_reported_failure flows client scopes0 w :
  exists delta, trace (snd (login flows client scopes0 w)) = (trace w ++ delta)%list /\
    (forall i, delta !! i = Some EvPrompt ->
       exists j m, i = S j /\ delta !! j = Some (EvShowError m)) /\
    length (List.filter is_trigger delta) <= length flows.
Proof.
  destruct flows as [|first rest].
  { exists []. cbn. rewrite app_nil_r. split; [done|]. split; [|cbn; lia].
    intros i Hi. rewrite lookup_nil in Hi. discriminate. }
  pose proof (login_loop_effects client scopes0 first (first :: rest) w false
                (fun f Hf Hne => ltac:(injection Hf as <-; done))) as Hl.
  unfold login. unfold_monad.
  destruct (login_loop client scopes0 first (first :: rest) w) as [r w'].
  destruct Hl as ((d & Hd & Hok & Hc) & _).
  assert (Hp : forall i, d !! i = Some EvPrompt ->
                 exists j m, i = S j /\ d !! j = Some (EvShowError m)).
  { intros i Hi. destruct (prompts_ok_spec false d i Hok Hi) as [[_ ?]|H]; [discriminate|done]. }
  exists d. destruct r as [e|[c|]]; cbn; done.
Qed.

(** Whatever [login] returns is a complete credential: it carries a
    refresh token, an access token, an expiry date and a scope. *)
Theorem login_returns_complete_credentials flows client scopes0 w c :
  fst (login flows client scopes0 w) = inr c ->
  is_Some (refresh_token c) /\ is_Some (access_token c) /\
  is_Some (expiry_date c) /\ is_Some (scope c).
Proof.
  destruct flows as [|first rest]; [done|].
  pose proof (login_loop_effects client scopes0 first (first :: rest) w false
                (fun f Hf Hne => ltac:(injection Hf as <-; done))) as Hl.
  unfold login. unfold_monad.
  destruct (login_loop client scopes0 first (first :: rest) w) as [r w'].
  destruct Hl as (_ & Hok).
  destruct r as [e|[c'|]]; cbn; [done| |done].
  intros [= <-]. specialize (Hok c' eq_refl).
  unfold isDefinedCredentials in Hok.
  apply andb_prop in Hok as [Hok H4]. apply andb_prop in Hok as [Hok H3].
  apply andb_prop in Hok as [H1 H2].
  apply bool_decide_eq_true in H1, H2, H3, H4. done.
Qed.

(** When the first flow's attempt succeeds, [login] returns its
    credentials at once: the world is exactly the one that attempt left,
    so no prompt, no error notification and no other flow. *)
Theorem login_first_attempt_success_short_circuits first rest client scopes0 w c w1 :
  attempt client scopes0 first w = (inr c, w1) ->
  login (first :: rest) client scopes0 w = (inr c, w1).
Proof.
  intros Ha. unfold login. cbn [login_loop]. unfold loop_body.
  rewrite (bool_decide_true (flow_ref first = flow_ref first)) by done. cbn [negb]. unfold_monad. rewrite Ha. done.
Qed.

(* [login] over a single flow: the attempt, then its report. *)
Lemma login_single_flow f client scopes0 w :
  let '(r, w') := login [f] client scopes0 w in
  answers w' = answers w /\
  (exists delta, trace w' = (trace w ++ delta)%list /\ EvPrompt ∉ delta) /\
  match attempt client scopes0 f w with
  | (inr c, w1) => r = inr c /\ w' = w1
  | (inl e, w1) => r = inl AuthenticationFailed /\
                   trace w' = (trace w1 ++ [EvShowError (attempt_failed_msg e)])%list
  end.
Proof.
  unfold login. cbn [login_loop]. unfold loop_body.
  rewrite (bool_decide_true (flow_ref f = flow_ref f)) by done. cbn [negb]. unfold_monad.
  destruct (attempt client scopes0 f w) as [r1 w1] eqn:Ea.
  destruct (attempt_effects _ _ _ _ _ _ Ea) as (Hans & (d & Hd & Hnp & _) & _).
  destruct r1 as [e|c]; cbn.
  - split; [done|]. split; [|done].
    exists (d ++ [EvShowError (attempt_failed_msg e)])%list.
    split; [rewrite Hd, <- (assoc_L app); done|].
    rewrite elem_of_app. intros [?|?%list_elem_of_singleton]; [done|discriminate].
  - split; [done|]. split; [|done]. exists d. done.
Qed.

(** With a single flow, [login] never shows the fallback prompt (no
    answer of the user is consumed and no prompt event occurs); it
    returns what the attempt returns, and when the attempt fails with [e]
    it reports "Sign-in attempt failed: <message of e>." once and fails
    with [AuthenticationFailed], never with [AllFlowsFailed]. *)
Theorem login_single_flow_outcome f client scopes0 w :
  let '(r, w') := login [f] client scopes0 w in
  answers w' = answers w /\
  (exists delta, trace w' = (trace w ++ delta)%list /\ EvPrompt ∉ delta) /\
  match attempt client scopes0 f w with
  | (inr c, w1) => r = inr c /\ w' = w1
  | (inl e, w1) => r = inl AuthenticationFailed /\
                   trace w' = (trace w1 ++ [EvShowError (attempt_failed_msg e)])%list
  end.
Proof. apply login_single_flow. Qed.

(** A failed token exchange is reported to the user with the status text
    wrapped twice, ending in a doubled period: for a single flow whose
    trigger resolves and whose token response has a status other than
    200, [login] fails with [AuthenticationFailed] after showing
    "Sign-in attempt failed: Failed to get token: <statusText>.." (with
    "unknown error" in place of the status text when the response has no
    HTTP part). *)
Theorem login_token_failure_message f client scopes0 w fr resp :
  (forall o, trigger f o = inr fr) ->
  (forall q, getToken client q = inr resp) ->
  (forall g, res resp = Some g -> status g <> 200%Z) ->
  let details := match res resp with Some g => statusText g | None => "unknown error" end in
  fst (login [f] client scopes0 w) = inl AuthenticationFailed /\
  last (trace (snd (login [f] client scopes0 w))) =
    Some (EvShowError ("Sign-in attempt failed: Failed to get token: " ++ details ++ "..")).
Proof.
  intros Htr Hgt Hst details.
  pose proof (login_single_flow f client scopes0 w) as Hs.
  destruct (login [f] client scopes0 w) as [r w'].
  assert (Hx : exists w1, attempt client scopes0 f w = (inl (TokenExchangeFailed details), w1)).
  { rewrite (attempt_after_trigger client scopes0 f w fr Htr).
    set (v := codeVerifier _). set (w1 := world_before_exchange _ _ _ _).
    pose proof (exchange_result client fr v w1) as Hr. rewrite Hgt in Hr.
    destruct (exchangeCodeForCredentials client fr v w1) as [r1 w2]. cbn in Hr.
    subst details. destruct (res resp) as [g|].
    - rewrite bool_decide_false in Hr by (apply Hst; done). subst r1. eauto.
    - subst r1. eauto. }
  destruct Hx as [w1 Hx]. rewrite Hx in Hs. destruct Hs as (_ & _ & Hr & Ht).
  cbn. split; [done|]. rewrite Ht, last_snoc. unfold attempt_failed_msg. cbn.
  rewrite !string_app_assoc. done.
Qed.

(** Each attempt wires PKCE and the flow's answer through: the flow is
    triggered with this attempt's progress cancellation token, a fresh
    nonce, the requested scopes and the challenge of a freshly generated
    code-verifier pair; the token request then carries the verifier of
    that same pair together with the code and the redirect URI the flow
    returned. A flow whose trigger rejects fails the attempt with its
    error and no token request is made. *)
Theorem attempt_pkce_and_code_wiring client scopes0 flow w :
  let t := next_id w in
  let pk := generateCodeVerifierAsync client (S (next_id w)) in
  let opts := {| cancel := t; nonce := pretty (S (next_id w)); scopes := scopes0;
                 pkceChallenge := Some (codeChallenge pk) |} in
  match trigger flow opts with
  | inr fr =>
      exists delta, trace (snd (attempt client scopes0 flow w)) =
        (trace w ++ [EvProgress t; EvTrigger (flow_ref flow) opts;
                     EvGetToken {| gt_code := code fr; gt_codeVerifier := codeVerifier pk;
                                   gt_redirect_uri := redirectUri fr |}] ++ delta)%list
  | inl e =>
      attempt client scopes0 flow w =
        (inl e, {| answers := answers w; next_id := S (S (next_id w));
                   trace := (trace w ++ [EvProgress t; EvTrigger (flow_ref flow) opts])%list |})
  end.
Proof.
  intros t pk opts. subst t pk opts. unfold attempt. unfold_monad. cbn.
  destruct (trigger flow _) as [e|fr]; cbn.
  - rewrite <- !(assoc_L app). done.
  - match goal with
    | |- context [exchangeCodeForCredentials client fr ?v ?w1] =>
        pose proof (exchange_trace client fr v w1) as Hx;
        destruct (exchangeCodeForCredentials client fr v w1) as [[e|c] w2]
    end; cbn in Hx |- *.
    + exists []. rewrite Hx, ?app_nil_r, <- !(assoc_L app). done.
    + destruct (disposable fr) as [d|]; cbn.
      * exists [EvDispose d]. rewrite Hx, <- !(assoc_L app). done.
      * exists []. rewrite Hx, ?app_nil_r, <- !(assoc_L app). done.
Qed.

Lemma login_returns_complete_credentials_witness :
  fst (login [ex_flow_ok] (ex_client_status 200 "OK") ["scope1"] (ex_world [])) =
    inr ex_credentials /\
  is_Some (refresh_token ex_credentials) /\ is_Some (access_token ex_credentials) /\
  is_Some (expiry_date ex_credentials) /\ is_Some (scope ex_credentials).
Proof.
  assert (H : fst (login [ex_flow_ok] (ex_client_status 200 "OK") ["scope1"] (ex_world []))
              = inr ex_credentials) by (vm_compute; reflexivity).
  split; [exact H|].
  exact (login_returns_complete_credentials [ex_flow_ok] (ex_client_status 200 "OK")
           ["scope1"] (ex_world []) ex_credentials H).
Defined.

Lemma login_first_attempt_success_short_circuits_witness :
  exists w1,
    attempt (ex_client_status 200 "OK") ["scope1"] ex_flow_ok (ex_world []) =
      (inr ex_credentials, w1) /\
    login [ex_flow_ok; ex_flow_failing] (ex_client_status 200 "OK") ["scope1"]
      (ex_world []) = (inr ex_credentials, w1).
Proof.
  exists (snd (attempt (ex_client_status 200 "OK") ["scope1"] ex_flow_ok (ex_world []))).
  assert (E : attempt (ex_client_status 200 "OK") ["scope1"] ex_flow_ok (ex_world []) =
              (inr ex_credentials,
               snd (attempt (ex_client_status 200 "OK") ["scope1"] ex_flow_ok (ex_world []))))
    by (vm_compute; reflexivity).
  split; [exact E|].
  exact (login_first_attempt_success_short_circuits ex_flow_ok [ex_flow_failing]
           (ex_client_status 200 "OK") ["scope1"] (ex_world []) ex_credentials _ E).
Defined.

Lemma login_token_failure_message_witness :
  (forall o, trigger ex_flow_ok o = inr ex_flow_result) /\
  (forall q, getToken (ex_client_status 500 "Internal Server Error") q =
             inr (ex_token_response 500 "Internal Server Error")) /\
  fst (login [ex_flow_ok] (ex_client_status 500 "Internal Server Error") ["scope1"]
         (ex_world [])) = inl AuthenticationFailed /\
  last (trace (snd (login [ex_flow_ok] (ex_client_status 500 "Internal Server Error")
                     ["scope1"] (ex_world [])))) =
    Some (EvShowError "Sign-in attempt failed: Failed to get token: Internal Server Error..").
Proof.
  split; [intros; reflexivity|]. split; [intros; reflexivity|].
  exact (login_token_failure_message ex_flow_ok (ex_client_status 500 "Internal Server Error")
           ["scope1"] (ex_world []) ex_flow_result
           (ex_token_response 500 "Internal Server Error")
           (fun _ => eq_refl) (fun _ => eq_refl)
           (fun g Hg => ltac:(injection Hg as <-; discriminate))).
Defined.

(* ------------------------------------------------------------------ *)
(* Proxied redirect flow and flow provider: src/auth/flows/proxied.ts, *)
(* src/auth/flows/flows.ts                                             *)
(* ------------------------------------------------------------------ *)

Record PackageInfo := { publisher : string; pkg_name : string }.

(* google-auth-library's [GenerateAuthUrlOpts], the fields the flow sets. *)
Record GenerateAuthUrlOpts := {
  access_type : string;
  response_type : string;
  prompt : string;
  code_challenge_method : string;
  redirect_uri : string;
  state : string;
  au_scope : list string;
  code_challenge : option string;
}.

(* The flow's code manager and the URLs handed to [env.openExternal]. *)
Record ProxiedWorld := { pw_codes : CodeManager; pw_opened : list string }.

Definition on_codes {A} (m : M CodeManager A) : M ProxiedWorld A :=
  fun pw => let '(r, s) := m (pw_codes pw) in
            (r, {| pw_codes := s; pw_opened := pw_opened pw |}).

Definition openExternal (u : string) : M ProxiedWorld unit :=
  modify (fun pw => {| pw_codes := pw_codes pw; pw_opened := (pw_opened pw ++ [u])%list |}).

Section ProxiedRedirectFlow.

Variable ColabApiDomain : string.                      (* CONFIG.ColabApiDomain *)
Variable uriScheme : string.                           (* vs.env.uriScheme *)
Variable packageInfo : PackageInfo.
Variable asExternalUri : string -> string.             (* vs.env.asExternalUri *)
Variable generateAuthUrl : GenerateAuthUrlOpts -> string.

Definition PROXIED_REDIRECT_URI : string := ColabApiDomain ++ "/vscode/redirect".

(* [this.baseUri], set by the constructor. *)
Definition baseUri : string :=
  uriScheme ++ "://" ++ publisher packageInfo ++ "." ++ pkg_name packageInfo.

(* The authorization URL [trigger] opens for [options]. *)
Definition proxied_auth_url (options : OAuth2TriggerOptions) : string :=
  let vsCodeRedirectUri := baseUri ++ "?nonce=" ++ nonce options in
  let externalProxiedRedirectUri := asExternalUri vsCodeRedirectUri in
  generateAuthUrl
    {| access_type := "offline"; response_type := "code"; prompt := "consent";
       code_challenge_method := "S256";                  (* DEFAULT_AUTH_URL_OPTS *)
       redirect_uri := PROXIED_REDIRECT_URI;
       state := externalProxiedRedirectUri;
       au_scope := scopes options;
       code_challenge := pkceChallenge options |}.

(* The first part of [trigger], up to [await code]: register the nonce,
   open the authorization URL; the ticket names the pending [code]
   promise. *)
Definition proxied_trigger_start (options : OAuth2TriggerOptions) : M ProxiedWorld nat :=
  k ← on_codes (waitForCode (nonce options) (cancel options));
  openExternal (proxied_auth_url options);;
  mret k.

Definition flowResultOf (c : string) : FlowResult :=
  {| code := c; redirectUri := Some PROXIED_REDIRECT_URI; disposable := None |}.

(* [return { code: await code, redirectUri: PROXIED_REDIRECT_URI }]: the
   trigger's promise once the request [k] has settled, [None] while it is
   pending. *)
Definition proxied_trigger_result (k : nat) (pw : ProxiedWorld) : option (Err + FlowResult) :=
  match cm_reqs (pw_codes pw) !! k with
  | Some (RDone (Resolved c)) => Some (inr (flowResultOf c))
  | Some (RDone (Failed e)) => Some (inl e)
  | _ => None
  end.


(* [OAuth2FlowProvider.getSupportedFlows()]: a single [ProxiedRedirectFlow].
   In the login model a flow is its reference and its settled trigger:
   [settle o] is how the awaits of [trigger(o)] settle, a code or an
   error. *)
Definition proxiedFlow (ref : nat) (settle : OAuth2TriggerOptions -> Err + string)
    : OAuth2Flow :=
  {| flow_ref := ref;
     trigger := fun o => match settle o with
                         | inl e => inl e
                         | inr c => inr (flowResultOf c)
                         end |}.

Definition getSupportedFlows (ref : nat) (settle : OAuth2TriggerOptions -> Err + string)
    : list OAuth2Flow :=
  [proxiedFlow ref settle].

End ProxiedRedirectFlow.

(* ------------------------------------------------------------------ *)
(* Facts about the query parser and the proxied flow                   *)
(* ------------------------------------------------------------------ *)










Ltac walk_list Hin :=
  repeat (apply elem_of_cons in Hin as [Hin|Hin]; [try discriminate|]);
  try (apply elem_of_nil in Hin; contradiction).

Section ProxiedFacts.

Variable ColabApiDomain : string.
Variable uriScheme : string.
Variable packageInfo : PackageInfo.
Variable asExternalUri : string -> string.
Variable generateAuthUrl : GenerateAuthUrlOpts -> string.

Lemma proxied_trigger_start_eq o pw :
  proxied_trigger_start ColabApiDomain uriScheme packageInfo asExternalUri generateAuthUrl o pw =
  (inr (cm_next (pw_codes pw)),
   {| pw_codes := snd (waitForCode (nonce o) (cancel o) (pw_codes pw));
      pw_opened := (pw_opened pw ++
                    [proxied_auth_url ColabApiDomain uriScheme packageInfo asExternalUri
                       generateAuthUrl o])%list |}).
Proof.
  unfold proxied_trigger_start, on_codes, openExternal, waitForCode. unfold_monad.
  destruct (cm_waiting (pw_codes pw) !! nonce o); reflexivity.
Qed.

Lemma attempt_proxied_effects ref settle client scopes0 w r w' :
  attempt client scopes0 (proxiedFlow ColabApiDomain ref settle) w = (r, w') ->
  exists delta, trace w' = (trace w ++ delta)%list /\
    (forall d, EvDispose d ∉ delta) /\
    (forall q, EvGetToken q ∈ delta ->
               gt_redirect_uri q = Some (PROXIED_REDIRECT_URI ColabApiDomain)).
Proof.
  unfold attempt, exchangeCodeForCredentials, proxiedFlow. unfold_monad. cbn.
  destruct (settle _) as [e|c]; cbn.
  { intros [= <- <-]. cbn. eexists. split; [rewrite <- (assoc_L app); reflexivity|].
    split; [intros d Hin; walk_list Hin|intros q Hin; walk_list Hin]. }
  destruct (getToken client _) as [e|resp]; cbn;
    [|destruct (res resp) as [g|]; cbn;
      [case_bool_decide; cbn; [destruct (isDefinedCredentials (tokens resp)); cbn|]|]];
    intros [= <- <-]; cbn; eexists; (split; [rewrite <- !(assoc_L app); reflexivity|]);
    (split; [intros d Hin; walk_list Hin|intros q Hin; walk_list Hin;
             injection Hin as Hq; subst q; reflexivity]).
Qed.

Local Abbreviation start :=
  (proxied_trigger_start ColabApiDomain uriScheme packageInfo asExternalUri generateAuthUrl).
Local Abbreviation auth_url :=
  (proxied_auth_url ColabApiDomain uriScheme packageInfo asExternalUri generateAuthUrl).


(** Triggering the proxied flow with a nonce that already has a pending
    request still opens the browser at the authorization URL, but the
    trigger's promise fails at once with [AlreadyWaiting]; the earlier
    request and the nonce table are left as they were. *)
Theorem proxied_trigger_nonce_in_use o pw k0 :
  cm_wf (pw_codes pw) ->
  cm_waiting (pw_codes pw) !! nonce o = Some k0 ->
  let k := cm_next (pw_codes pw) in
  let '(r, pw1) := start o pw in
  r = inr k /\
  pw_opened pw1 = (pw_opened pw ++ [auth_url o])%list /\
  proxied_trigger_result ColabApiDomain k pw1 = Some (inl AlreadyWaiting) /\
  cm_reqs (pw_codes pw1) !! k0 = cm_reqs (pw_codes pw) !! k0 /\
  cm_waiting (pw_codes pw1) = cm_waiting (pw_codes pw).
Proof.
  intros Hwf Hk0 k. pose proof (cm_wf_ticket_lt _ _ _ Hwf Hk0) as Hlt.
  rewrite proxied_trigger_start_eq. unfold waitForCode. rewrite Hk0. cbn.
  unfold proxied_trigger_result. cbn. rewrite lookup_insert_eq.
  split; [done|]. split; [done|]. split; [done|].
  split; [|done]. rewrite lookup_insert_ne by (subst k; lia). done.
Qed.

(** [login] over the provider's flows (a single proxied flow) never
    shows the fallback prompt and never disposes anything; every token
    request it makes carries the proxied redirect URI; it either returns
    credentials or fails with [AuthenticationFailed] (never
    [NoFlowsAvailable] or [AllFlowsFailed]). *)
Theorem login_proxied_provider ref settle client scopes0 w :
  let '(r, w') := login (getSupportedFlows ColabApiDomain ref settle) client scopes0 w in
  (exists delta, trace w' = (trace w ++ delta)%list /\ (EvPrompt ∉ delta) /\
     (forall d, EvDispose d ∉ delta) /\
     (forall q, EvGetToken q ∈ delta ->
                gt_redirect_uri q = Some (PROXIED_REDIRECT_URI ColabApiDomain))) /\
  (r = inl AuthenticationFailed \/ exists c, r = inr c).
Proof.
  unfold getSupportedFlows.
  pose proof (login_single_flow (proxiedFlow ColabApiDomain ref settle) client scopes0 w) as Hs.
  destruct (login _ client scopes0 w) as [r w'].
  destruct Hs as (_ & (d0 & Hd0 & Hnp) & Hs).
  destruct (attempt client scopes0 (proxiedFlow ColabApiDomain ref settle) w)
    as [r1 w1] eqn:Ea.
  destruct (attempt_proxied_effects _ _ _ _ _ _ _ Ea) as (d & Hd & Hdisp & Hget).
  destruct r1 as [e|c]; destruct Hs as [-> Hw].
  - split; [|by left]. exists d0. split; [done|]. split; [done|].
    rewrite Hw, Hd, <- (assoc_L app) in Hd0. apply app_inv_head in Hd0. subst d0.
    split.
    + intros d' Hin. apply elem_of_app in Hin as [Hin|Hin]; [by apply (Hdisp d')|].
      walk_list Hin.
    + intros q Hin. apply elem_of_app in Hin as [Hin|Hin]; [by apply Hget|].
      walk_list Hin.
  - split; [|by right; exists c]. subst w'. exists d. split; [done|].
    split; [|done]. rewrite Hd in Hd0. apply app_inv_head in Hd0. by subst d0.
Qed.

End ProxiedFacts.


Definition ex_domain : string := "https://colab.research.google.com".
Definition ex_pkg : PackageInfo := {| publisher := "google"; pkg_name := "colab" |}.
Definition ex_auth_url (opts : GenerateAuthUrlOpts) : string :=
  "https://accounts.google.com/o/oauth2/v2/auth?state=" ++ state opts.
Definition ex_trigger_opts : OAuth2TriggerOptions :=
  {| cancel := 0; nonce := "7"; scopes := ["scope1"]; pkceChallenge := Some "challenge" |}.
Definition ex_pw (cm : CodeManager) : ProxiedWorld := {| pw_codes := cm; pw_opened := [] |}.


Lemma proxied_trigger_nonce_in_use_witness :
  let pw := ex_pw (snd (waitForCode "7" 0 (code_manager_init 0))) in
  cm_wf (pw_codes pw) /\ cm_waiting (pw_codes pw) !! "7" = Some 0 /\
  let '(r, pw1) := proxied_trigger_start ex_domain "vscode" ex_pkg (fun u => u) ex_auth_url
                     ex_trigger_opts pw in
  r = inr 1 /\
  pw_opened pw1 = [proxied_auth_url ex_domain "vscode" ex_pkg (fun u => u) ex_auth_url ex_trigger_opts] /\
  proxied_trigger_result ex_domain 1 pw1 = Some (inl AlreadyWaiting) /\
  cm_reqs (pw_codes pw1) !! 0 = cm_reqs (pw_codes pw) !! 0 /\
  cm_waiting (pw_codes pw1) = cm_waiting (pw_codes pw).
Proof.
  intros pw.
  assert (Hwf : cm_wf (pw_codes pw)) by (apply cm_wf_waitForCode, cm_wf_init).
  assert (Hk : cm_waiting (pw_codes pw) !! "7" = Some 0) by reflexivity.
  split; [exact Hwf|]. split; [exact Hk|].
  exact (proxied_trigger_nonce_in_use ex_domain "vscode" ex_pkg (fun u => u) ex_auth_url
           ex_trigger_opts pw 0 Hwf Hk).
Defined.


(* ------------------------------------------------------------------ *)
(* In-memory server storage: ServerStorageFake                         *)
(* ------------------------------------------------------------------ *)

(* [private servers?: ColabAssignedServer[]]: undefined until the first
   [store] and after [clear]. *)
Definition FakeStorage := option (list ColabAssignedServer).

Definition servers_or_empty (st : FakeStorage) : list ColabAssignedServer :=
  match st with Some l => l | None => [] end.

Definition fake_list : M FakeStorage (list ColabAssignedServer) :=
  gets servers_or_empty.

Definition fake_get (serverId : string) : M FakeStorage (option ColabAssignedServer) :=
  gets (fun st => st ≫= fun l => List.find (fun s => bool_decide (id (server s) = serverId)) l).

Definition fake_store (servers : list ColabAssignedServer) : M FakeStorage unit :=
  modify (fun _ => Some servers).

Definition fake_remove (serverId : string) : M FakeStorage bool :=
  fun st =>
    let lengthBefore := length (servers_or_empty st) in
    let st' := (fun l => filter (fun s => id (server s) <> serverId) l) <$> st in
    (inr (bool_decide (length (servers_or_empty st') < lengthBefore)), st').

Definition fake_clear : M FakeStorage unit := modify (fun _ => None).

Lemma filter_length_lt {A} (P : A -> Prop) `{!forall x, Decision (P x)} (l : list A) :
  length (filter P l) < length l <-> exists x, x ∈ l /\ ~ P x.
Proof.
  induction l as [|x l IH]; cbn.
  - split; [lia|]. intros (y & Hy & _). by apply elem_of_nil in Hy.
  - pose proof (length_filter P l) as Hle.
    case_decide as Hx; cbn.
    + rewrite <- Nat.succ_lt_mono, IH. split.
      * intros (y & Hy & Hny). exists y. split; [set_solver|done].
      * intros (y & [->|Hy]%elem_of_cons & Hny); [done|]. by exists y.
    + split; [intros _; exists x; split; [set_solver|done]|intros _; apply Nat.lt_succ_r; exact Hle].
Qed.

Lemma find_filter_excluded (l : list ColabAssignedServer) sid :
  List.find (fun s => bool_decide (id (server s) = sid))
            (filter (fun s => id (server s) <> sid) l) = None.
Proof.
  induction l as [|x l IH]; cbn; [done|].
  case_decide as Hx; cbn; [|done]. by rewrite bool_decide_false.
Qed.

Lemma find_filter_other (l : list ColabAssignedServer) sid sid' :
  sid' <> sid ->
  List.find (fun s => bool_decide (id (server s) = sid'))
            (filter (fun s => id (server s) <> sid) l) =
  List.find (fun s => bool_decide (id (server s) = sid')) l.
Proof.
  intros Hne. induction l as [|x l IH]; cbn; [done|].
  case_decide as Hx; cbn.
  - by destruct (bool_decide (id (server x) = sid')).
  - rewrite bool_decide_false by congruence. done.
Qed.

(** The fake's [remove(id)] reports [true] exactly when some stored
    server has that id; afterwards [list] returns the stored servers
    without those with that id, in their order, [get(id)] finds nothing,
    and [get] of any other id finds what it found before. *)
Theorem fake_remove_spec st sid :
  let '(r, st') := fake_remove sid st in
  (r = inr true <-> exists s, s ∈ servers_or_empty st /\ id (server s) = sid) /\
  fst (fake_list st') = inr (filter (fun s => id (server s) <> sid) (servers_or_empty st)) /\
  fst (fake_get sid st') = inr None /\
  (forall sid', sid' <> sid -> fst (fake_get sid' st') = fst (fake_get sid' st)).
Proof.
  unfold fake_remove, fake_list, fake_get, gets. cbn.
  split; [|split; [|split]].
  - destruct st as [l|]; cbn.
    + split.
      * intros [= Hb]. apply bool_decide_eq_true in Hb.
        apply filter_length_lt in Hb as (s & Hs & Hn).
        exists s. split; [done|]. by apply dec_stable.
      * intros (s & Hs & Hid). f_equal. apply bool_decide_eq_true.
        apply filter_length_lt. exists s. split; [done|]. by intros Hn.
    + split; [intros [= Hb]; by apply bool_decide_eq_true in Hb|].
      intros (s & Hs & _). by apply elem_of_nil in Hs.
  - by destruct st.
  - destruct st as [l|]; cbn; [|done]. by rewrite find_filter_excluded.
  - intros sid' Hne. destruct st as [l|]; cbn; [|done]. by rewrite find_filter_other.
Qed.
